(** * DroneSwarmSimulation: physics, delivery network and orchestrator

    A shallow embedding of the C++ sources (Vector2.h, World.h, Drone.cpp,
    Message.h, Node.h, Network.h, Simulator.cpp) and the properties of the
    design document that are checked against it.

    Conventions of the embedding.
    - A C++ [double] is an element of [R]: arithmetic is exact and every
      comparison is decided by the order of the reals ([Rlt_dec] and
      friends).  Rounding, infinities and NaN are outside the model.
      Statements proved on it are kept to what does not depend on exact
      arithmetic: comparisons, assigned constants, monotone bounds.
      Module [Binary64] transcribes the vector and thrust functions on
      IEEE binary64 numbers, to evaluate them where rounding decides.
    - A C++ [int] counter is an element of [Z] (signed overflow is undefined
      behaviour in the source, so no wrap-around is written).
    - A [std::string] is a [string]; a [char] is an [ascii], eight bits.
    - [std::vector] is [list]; [std::unordered_map<std::string,int>] is a
      [gmap string nat].
    - Member functions take the object as first argument and return the
      updated object: explicit state passing. *)

From Stdlib Require Import PrimFloat.
From Stdlib Require Import Reals Lra ZArith String Ascii DecimalString.
From stdpp Require Import gmap strings list fin_maps.
From Stdlib Require DecimalPos DecimalZ.

Open Scope R_scope.

(** ** Vector2.h *)

Module Vector2.

Record t : Type := mk { x : R; y : R }.

(** [operator+] *)
Definition add (a b : t) : t := mk (x a + x b) (y a + y b).

(** [operator-] *)
Definition sub (a b : t) : t := mk (x a - x b) (y a - y b).

(** [operator*(double)] *)
Definition scale (a : t) (scalar : R) : t := mk (x a * scalar) (y a * scalar).

(** [length()] *)
Definition length (a : t) : R := sqrt (x a * x a + y a * y a).

(** [normalized()] *)
Definition normalized (a : t) : t :=
  let len := length a in
  if Req_dec_T len 0 then mk 0 0
  else mk (x a / len) (y a / len).

End Vector2.

(** ** World.h *)

Module World.

Record t : Type := mk { gravity : Vector2.t; width : R; height : R }.

(** The default constructor. *)
Definition default : t := mk (Vector2.mk 0 (-9.8)) 100 100.

End World.

(** ** Drone.h, Drone.cpp *)

Module Drone.

Record DroneParams : Type := mkParams {
  mass : R;
  maxThrust : R;
  maxSpeed : R
}.

Record t : Type := mk {
  mId : Z;
  mParameters : DroneParams;
  mPosition : Vector2.t;
  mVelocity : Vector2.t;
  mThrust : Vector2.t
}.

(** [Drone::Drone] *)
Definition new (id : Z) (parameters : DroneParams) (startPos : Vector2.t) : t :=
  mk id parameters startPos (Vector2.mk 0 0) (Vector2.mk 0 0).

Definition with_thrust (d : t) (th : Vector2.t) : t :=
  mk (mId d) (mParameters d) (mPosition d) (mVelocity d) th.

Definition with_motion (d : t) (p v : Vector2.t) : t :=
  mk (mId d) (mParameters d) p v (mThrust d).

(** [Drone::setThrustDirection] *)
Definition setThrustDirection (d : t) (direction : Vector2.t) : t :=
  let dirNorm := Vector2.normalized direction in
  with_thrust d (Vector2.scale dirNorm (maxThrust (mParameters d))).

(** [Drone::setThrustForce] *)
Definition setThrustForce (d : t) (force : Vector2.t) : t :=
  let mag := Vector2.length force in
  if Req_dec_T mag 0 then with_thrust d force
  else if Rle_dec mag (maxThrust (mParameters d)) then with_thrust d force
  else with_thrust d (Vector2.scale force (maxThrust (mParameters d) / mag)).

(** [Drone::clearThrust] *)
Definition clearThrust (d : t) : t := with_thrust d (Vector2.mk 0 0).

(** [Drone::update], lines 97-111: forces, velocity, speed limit and
    position, before the boundary conditions. *)
Definition integrate (d : t) (dt : R) (world : World.t) : t :=
  let gravityForce := Vector2.scale (World.gravity world) (mass (mParameters d)) in
  let totalForce := Vector2.add (mThrust d) gravityForce in
  let acceleration := Vector2.scale totalForce (1 / mass (mParameters d)) in
  let v1 := Vector2.add (mVelocity d) (Vector2.scale acceleration dt) in
  let speed := Vector2.length v1 in
  let v2 :=
    if Rgt_dec (maxSpeed (mParameters d)) 0 then
      if Rgt_dec speed (maxSpeed (mParameters d))
      then Vector2.scale v1 (maxSpeed (mParameters d) / speed)
      else v1
    else v1 in
  let p := Vector2.add (mPosition d) (Vector2.scale v2 dt) in
  with_motion d p v2.

(** [Drone::update], lines 114-117: the four boundary tests, in the order
    of the source; each one rewrites one component of the position and of
    the velocity. *)
Definition boundary (d : t) (world : World.t) : t :=
  let p := mPosition d in
  let v := mVelocity d in
  let '(p, v) :=
    if Rlt_dec (Vector2.x p) 0
    then (Vector2.mk 0 (Vector2.y p), Vector2.mk 0 (Vector2.y v))
    else (p, v) in
  let '(p, v) :=
    if Rlt_dec (Vector2.y p) 0
    then (Vector2.mk (Vector2.x p) 0, Vector2.mk (Vector2.x v) 0)
    else (p, v) in
  let '(p, v) :=
    if Rgt_dec (Vector2.x p) (World.width world)
    then (Vector2.mk (World.width world) (Vector2.y p), Vector2.mk 0 (Vector2.y v))
    else (p, v) in
  let '(p, v) :=
    if Rgt_dec (Vector2.y p) (World.height world)
    then (Vector2.mk (Vector2.x p) (World.height world), Vector2.mk (Vector2.x v) 0)
    else (p, v) in
  with_motion d p v.

(** [Drone::update] *)
Definition update (d : t) (dt : R) (world : World.t) : t :=
  boundary (integrate d dt world) world.

End Drone.

(** ** Message.h *)

Module Message.

Record t : Type := mk {
  id : Z;
  from : string;
  to : string;
  payload : string;
  cipherText : string;
  sendTime : R;
  deliverTime : R;
  delivered : bool;
  dropped : bool
}.

End Message.

(** ** Node.h *)

Module Node.

Record ReceivedMessage : Type := mkReceived {
  id : Z;
  from : string;
  payload : string;
  timeReceived : R;
  latency : R
}.

Record t : Type := mk {
  name_ : string;
  inbox_ : list ReceivedMessage
}.

(** [Node::Node] *)
Definition new (name : string) : t := mk name [].

(** [Node::onMessageReceived] *)
Definition onMessageReceived (n : t) (id : Z) (from payload : string)
    (timeReceived latency : R) : t :=
  mk (name_ n) (inbox_ n ++ [mkReceived id from payload timeReceived latency]).

End Node.

(** ** The pseudorandom source of the network

  [std::mt19937] seeded from [std::random_device] is an arbitrary stream
  of canonical draws, read in order; [uniform_real_distribution(a,b)]
  maps a canonical draw [r] to [a + (b - a) * r]. *)

Module Rng.

Record t : Type := mk { source : nat -> R; drawn : nat }.

Definition canonical (g : t) : R * t :=
  (source g (drawn g), mk (source g) (S (drawn g))).

Definition uniform_real (a b : R) (g : t) : R * t :=
  let '(r, g') := canonical g in (a + (b - a) * r, g').

End Rng.

(** ** Network.h *)

Module Network.

(** What the network writes to [std::cout], one constructor per tag. *)
Inductive ConsoleLine : Type :=
| DropScheduledLine (time : R) (from to : string) (msgId : Z) (len : nat)
| SendLine (time : R) (from to : string) (msgId : Z) (len : nat)
| DeliveryFailedLine (time : R) (to : string) (msgId : Z)
| DeliverLine (time : R) (from to : string) (msgId : Z) (latency : R)
    (payload : string).

(** A row of comms_log.csv, columns in the order of the header. *)
Record LogRow : Type := mkRow {
  row_event : string;
  row_time : R;
  row_id : Z;
  row_from : string;
  row_to : string;
  row_latency : R;
  row_dropped : Z;
  row_payload : string
}.

Record t : Type := mk {
  logFile_ : list LogRow;
  baseLatency_ : R;
  jitter_ : R;
  dropProb_ : R;
  nodes_ : list Node.t;
  nodeIndex_ : gmap string nat;
  inTransit_ : list Message.t;
  droppedMessages_ : list Message.t;
  nextMessageId_ : Z;
  deliveredCount_ : Z;
  totalLatency_ : R;
  rng_ : Rng.t;
  cout_ : list ConsoleLine
}.

Definition encryptionKey_ : string := "USMC-COMMS-KEY".

(** [Network::Network]; [seed] is what [std::random_device] gave. *)
Definition new (baseLatency jitter dropProbability : R) (seed : nat -> R) : t :=
  mk [] baseLatency jitter dropProbability [] ∅ [] [] 1%Z 0%Z 0
     (Rng.mk seed 0) [].

(** [Network::addNode]; the index stored is [nodes_.size() - 1] after the
    [emplace_back]. *)
Definition addNode (net : t) (name : string) : t :=
  let nodes := nodes_ net ++ [Node.new name] in
  mk (logFile_ net) (baseLatency_ net) (jitter_ net) (dropProb_ net)
     nodes
     (<[name := (List.length nodes - 1)%nat]> (nodeIndex_ net))
     (inTransit_ net) (droppedMessages_ net) (nextMessageId_ net)
     (deliveredCount_ net) (totalLatency_ net) (rng_ net) (cout_ net).

(** [Network::getNode]; the pointer [&nodes_[i]] is the index [i], the
    null pointer is [None]. *)
Definition getNode (net : t) (name : string) : option nat :=
  nodeIndex_ net !! name.

(** [char ^ char], truncated to a [char]. *)
Definition xor_char (a b : ascii) : ascii :=
  match a, b with
  | Ascii a0 a1 a2 a3 a4 a5 a6 a7, Ascii b0 b1 b2 b3 b4 b5 b6 b7 =>
      Ascii (xorb a0 b0) (xorb a1 b1) (xorb a2 b2) (xorb a3 b3)
            (xorb a4 b4) (xorb a5 b5) (xorb a6 b6) (xorb a7 b7)
  end.

(** The loop of [Network::xorCipher] from index [i] on.  [key[i % 0]] is
    undefined in the source; the model reads a NUL character there. *)
Fixpoint xorCipher_from (i : nat) (text key : string) : string :=
  match text with
  | EmptyString => EmptyString
  | String c rest =>
      let k := match String.get (i mod String.length key) key with
               | Some k => k
               | None => Ascii.zero
               end in
      String (xor_char c k) (xorCipher_from (S i) rest key)
  end.

(** [Network::xorCipher] *)
Definition xorCipher (text key : string) : string := xorCipher_from 0 text key.

(** [Network::sampleLatency]; [jitterDist_] was built over
    [(-jitter, jitter)]. *)
Definition sampleLatency (net : t) (g : Rng.t) : R * Rng.t :=
  let '(j, g') := Rng.uniform_real (- jitter_ net) (jitter_ net) g in
  (baseLatency_ net + j, g').

(** [Network::sendMessage] *)
Definition sendMessage (net : t) (from to payload : string) (currentTime : R) : t :=
  let id := nextMessageId_ net in
  let cipherText := xorCipher payload encryptionKey_ in
  let '(u, g1) := Rng.uniform_real 0 1 (rng_ net) in
  if Rlt_dec u (dropProb_ net) then
    let '(lat, g2) := sampleLatency net g1 in
    let msg := Message.mk id from to payload cipherText currentTime
                 (currentTime + lat) false true in
    mk (logFile_ net ++
          [mkRow "drop_scheduled" currentTime id from to 0 1 payload])
       (baseLatency_ net) (jitter_ net) (dropProb_ net)
       (nodes_ net) (nodeIndex_ net)
       (inTransit_ net) (droppedMessages_ net ++ [msg]) (id + 1)%Z
       (deliveredCount_ net) (totalLatency_ net) g2
       (cout_ net ++
          [DropScheduledLine currentTime from to id (String.length cipherText)])
  else
    let '(lat, g2) := sampleLatency net g1 in
    let msg := Message.mk id from to payload cipherText currentTime
                 (currentTime + lat) false false in
    mk (logFile_ net ++ [mkRow "send" currentTime id from to 0 0 payload])
       (baseLatency_ net) (jitter_ net) (dropProb_ net)
       (nodes_ net) (nodeIndex_ net)
       (inTransit_ net ++ [msg]) (droppedMessages_ net) (id + 1)%Z
       (deliveredCount_ net) (totalLatency_ net) g2
       (cout_ net ++
          [SendLine currentTime from to id (String.length cipherText)]).

(** [Network::deliver] *)
Definition deliver (net : t) (msg : Message.t) (currentTime : R) : t :=
  match getNode net (Message.to msg) with
  | None =>
      mk (logFile_ net) (baseLatency_ net) (jitter_ net) (dropProb_ net)
         (nodes_ net) (nodeIndex_ net) (inTransit_ net)
         (droppedMessages_ net) (nextMessageId_ net) (deliveredCount_ net)
         (totalLatency_ net) (rng_ net)
         (cout_ net ++
            [DeliveryFailedLine currentTime (Message.to msg) (Message.id msg)])
  | Some dest =>
      let latency := Message.deliverTime msg - Message.sendTime msg in
      let plaintext := xorCipher (Message.cipherText msg) encryptionKey_ in
      mk (logFile_ net ++
            [mkRow "deliver" currentTime (Message.id msg) (Message.from msg)
               (Message.to msg) latency 0 plaintext])
         (baseLatency_ net) (jitter_ net) (dropProb_ net)
         (alter (fun n => Node.onMessageReceived n (Message.id msg)
                            (Message.from msg) plaintext
                            (Message.deliverTime msg) latency)
                dest (nodes_ net))
         (nodeIndex_ net) (inTransit_ net) (droppedMessages_ net)
         (nextMessageId_ net) (deliveredCount_ net + 1)%Z
         (totalLatency_ net + latency) (rng_ net)
         (cout_ net ++
            [DeliverLine currentTime (Message.from msg) (Message.to msg)
               (Message.id msg) latency plaintext])
  end.

(** The [for] loop of [Network::step] over [inTransit_]: the network as
    [deliver] leaves it, and the vector [remaining]. *)
Fixpoint step_loop (msgs : list Message.t) (currentTime : R)
    (net : t) (remaining : list Message.t) : t * list Message.t :=
  match msgs with
  | [] => (net, remaining)
  | msg :: rest =>
      if Rle_dec (Message.deliverTime msg) currentTime
      then step_loop rest currentTime (deliver net msg currentTime) remaining
      else step_loop rest currentTime net (remaining ++ [msg])
  end.

(** [Network::step] *)
Definition step (net : t) (currentTime : R) : t :=
  let '(net', remaining) := step_loop (inTransit_ net) currentTime net [] in
  mk (logFile_ net') (baseLatency_ net') (jitter_ net') (dropProb_ net')
     (nodes_ net') (nodeIndex_ net') remaining (droppedMessages_ net')
     (nextMessageId_ net') (deliveredCount_ net') (totalLatency_ net')
     (rng_ net') (cout_ net').

(** What [Network::printSummary] prints: the counters, the average
    latency when something was delivered, and every node of [nodes_]
    with its inbox, in the order of [nodes_]. *)
Record Summary : Type := mkSummary {
  sum_finalTime : R;
  sum_delivered : Z;
  sum_dropped : nat;
  sum_avgLatency : option R;
  sum_inboxes : list (string * list Node.ReceivedMessage)
}.

(** [Network::printSummary] *)
Definition printSummary (net : t) (finalTime : R) : Summary :=
  mkSummary finalTime (deliveredCount_ net)
    (List.length (droppedMessages_ net))
    (if Z_gt_dec (deliveredCount_ net) 0
     then Some (totalLatency_ net / IZR (deliveredCount_ net))
     else None)
    (map (fun n => (Node.name_ n, Node.inbox_ n)) (nodes_ net)).

End Network.

(** ** Simulator.h, Simulator.cpp *)

Module Simulator.

Record t : Type := mk {
  mWorld : World.t;
  mDrones : list Drone.t;
  mComms : Network.t;
  mSimTime : R;
  mNextReportTime : R;
  mReportInterval : R
}.

(** [Simulator::Simulator]; [seed] is handed to the network's generator. *)
Definition new (world : World.t) (seed : nat -> R) : t :=
  mk world [] (Network.addNode (Network.new 0.5 0.2 0.15 seed) "HQ")
     0 0.5 0.5.

(** [std::to_string(int)] *)
Definition to_string (n : Z) : string := NilZero.string_of_int (Z.to_int n).

(** ["Drone" + std::to_string(id)] *)
Definition droneNodeName (id : Z) : string := "Drone" +:+ to_string id.

(** [Simulator::addDrone]: the simulator and the id returned. *)
Definition addDrone (sim : t) (parameters : Drone.DroneParams)
    (startPos : Vector2.t) : t * Z :=
  let id := Z.of_nat (List.length (mDrones sim)) in
  (mk (mWorld sim) (mDrones sim ++ [Drone.new id parameters startPos])
      (Network.addNode (mComms sim) (droneNodeName id))
      (mSimTime sim) (mNextReportTime sim) (mReportInterval sim),
   id).

(** The bounds test shared by the three thrust commands, then
    [mDrones[droneId].f()]. *)
Definition onDrone (sim : t) (droneId : Z) (f : Drone.t -> Drone.t) : t :=
  if decide (0 <= droneId /\ droneId < Z.of_nat (List.length (mDrones sim)))%Z
  then mk (mWorld sim) (alter f (Z.to_nat droneId) (mDrones sim)) (mComms sim)
          (mSimTime sim) (mNextReportTime sim) (mReportInterval sim)
  else sim.

(** [Simulator::setDroneThrustDirection] *)
Definition setDroneThrustDirection (sim : t) (droneId : Z) (direction : Vector2.t) : t :=
  onDrone sim droneId (fun d => Drone.setThrustDirection d direction).

(** [Simulator::setDroneThrustForce] *)
Definition setDroneThrustForce (sim : t) (droneId : Z) (force : Vector2.t) : t :=
  onDrone sim droneId (fun d => Drone.setThrustForce d force).

(** [Simulator::clearDroneThrust] *)
Definition clearDroneThrust (sim : t) (droneId : Z) : t :=
  onDrone sim droneId Drone.clearThrust.

Section Telemetry.

(** How [std::fixed << std::setprecision(2)] prints a [double]: a function
    of the standard library, taken as given. *)
Variable fixed2 : R -> string.

(** The payload built by [Simulator::sendDroneStatus]. *)
Definition statusPayload (d : Drone.t) : string :=
  "STATUS pos=(" +:+ fixed2 (Vector2.x (Drone.mPosition d)) +:+ "," +:+
  fixed2 (Vector2.y (Drone.mPosition d)) +:+ ") vel=(" +:+
  fixed2 (Vector2.x (Drone.mVelocity d)) +:+ "," +:+
  fixed2 (Vector2.y (Drone.mVelocity d)) +:+ ")".

(** [Simulator::sendDroneStatus]; only [mComms] is written. *)
Definition sendDroneStatus (comms : Network.t) (d : Drone.t) (currentTime : R)
    : Network.t :=
  let payload := statusPayload d in
  let fromName := droneNodeName (Drone.mId d) in
  Network.sendMessage comms fromName "HQ" payload currentTime.

(** [Simulator::step] *)
Definition step (sim : t) (dt : R) : t :=
  let simTime := mSimTime sim + dt in
  let drones := map (fun d => Drone.update d dt (mWorld sim)) (mDrones sim) in
  let '(comms, nextReportTime) :=
    if Rge_dec simTime (mNextReportTime sim) then
      (fold_left (fun c d => sendDroneStatus c d simTime) drones (mComms sim),
       mNextReportTime sim + mReportInterval sim)
    else (mComms sim, mNextReportTime sim) in
  mk (mWorld sim) drones (Network.step comms simTime) simTime nextReportTime
     (mReportInterval sim).

(** [Simulator::printCommsSummary] *)
Definition printCommsSummary (sim : t) : Network.Summary :=
  Network.printSummary (mComms sim) (mSimTime sim).

End Telemetry.

End Simulator.

(** ** The vector and thrust functions on binary64 numbers

    Vector2.h and the two thrust commands of Drone.cpp once more, with
    [double] as [float] and the operations of IEEE 754 binary64. *)

Module Binary64.

Record Vector2 : Type := mkVector2 { x : float; y : float }.

(** [operator+] *)
Definition add (a b : Vector2) : Vector2 :=
  mkVector2 (x a + x b)%float (y a + y b)%float.

(** [operator-] *)
Definition sub (a b : Vector2) : Vector2 :=
  mkVector2 (x a - x b)%float (y a - y b)%float.

(** [operator*(double)] *)
Definition scale (a : Vector2) (scalar : float) : Vector2 :=
  mkVector2 (x a * scalar)%float (y a * scalar)%float.

(** [length()] *)
Definition length (a : Vector2) : float :=
  PrimFloat.sqrt (x a * x a + y a * y a)%float.

(** [normalized()] *)
Definition normalized (a : Vector2) : Vector2 :=
  let len := length a in
  if PrimFloat.eqb len 0%float then mkVector2 0%float 0%float
  else mkVector2 (x a / len)%float (y a / len)%float.

Record DroneParams : Type := mkParams {
  mass : float;
  maxThrust : float;
  maxSpeed : float
}.

Record Drone : Type := mkDrone {
  mId : Z;
  mParameters : DroneParams;
  mPosition : Vector2;
  mVelocity : Vector2;
  mThrust : Vector2
}.

Definition with_thrust (d : Drone) (th : Vector2) : Drone :=
  mkDrone (mId d) (mParameters d) (mPosition d) (mVelocity d) th.

(** [Drone::setThrustDirection] *)
Definition setThrustDirection (d : Drone) (direction : Vector2) : Drone :=
  let dirNorm := normalized direction in
  with_thrust d (scale dirNorm (maxThrust (mParameters d))).

(** [Drone::setThrustForce] *)
Definition setThrustForce (d : Drone) (force : Vector2) : Drone :=
  let mag := length force in
  if (PrimFloat.eqb mag 0%float || PrimFloat.leb mag (maxThrust (mParameters d)))%bool
  then with_thrust d force
  else with_thrust d (scale force (maxThrust (mParameters d) / mag)%float).

End Binary64.

(** ** Vocabulary of the statements *)

(** One axis of the boundary conditions, as a function of the coordinate
    reached by the integration and of the world's extent on that axis. *)
Definition clamp_fired (p extent : R) : Prop := p < 0 \/ p > extent.

Definition clamp_axis (p extent : R) : R :=
  if Rlt_dec p 0 then 0 else if Rgt_dec p extent then extent else p.


Definition unit_force_x : Vector2.t := Vector2.mk 1 0.


(** On binary64 numbers: a drone of mass 1 with maxThrust 10 at the
    origin, and the force (2,10). *)
Definition binary64_drone : Binary64.Drone :=
  Binary64.mkDrone 0 (Binary64.mkParams 1 10 0)
    (Binary64.mkVector2 0 0) (Binary64.mkVector2 0 0) (Binary64.mkVector2 0 0).

Definition binary64_force : Binary64.Vector2 := Binary64.mkVector2 2 10.

(** Scenario A: the world, the parameters of the agent and its start. *)
Definition scenarioA_world : World.t := World.mk (Vector2.mk 0 (-9.8)) 100 100.

Definition scenarioA_params : Drone.DroneParams := Drone.mkParams 1 10 0.

Definition scenarioA_start : Vector2.t := Vector2.mk 50 50.

(** Comparisons of doubles are decidable. *)
#[global] Instance Rle_decision (a b : R) : Decision (a <= b) := Rle_dec a b.

#[global] Instance Rlt_decision (a b : R) : Decision (a < b) := Rlt_dec a b.

(** A message is due at [now]; it is still travelling at [now]. *)
Definition due (now : R) (m : Message.t) : Prop := Message.deliverTime m <= now.

Definition travelling (now : R) (m : Message.t) : Prop := now < Message.deliverTime m.

#[global] Instance due_decision (now : R) (m : Message.t) : Decision (due now m) :=
  Rle_dec (Message.deliverTime m) now.

#[global] Instance travelling_decision (now : R) (m : Message.t) :
  Decision (travelling now m) := Rlt_dec now (Message.deliverTime m).

(** The recipient of [m] is a registered name; [m] is addressed to the
    node stored at index [i]. *)
Definition registered (net : Network.t) (m : Message.t) : Prop :=
  is_Some (Network.getNode net (Message.to m)).

Definition addressed_to (net : Network.t) (i : nat) (m : Message.t) : Prop :=
  Network.getNode net (Message.to m) = Some i.

#[global] Instance registered_decision (net : Network.t) (m : Message.t) :
  Decision (registered net m) :=
  decide (is_Some (Network.getNode net (Message.to m))).

#[global] Instance addressed_to_decision (net : Network.t) (i : nat) (m : Message.t) :
  Decision (addressed_to net i m) :=
  decide (Network.getNode net (Message.to m) = Some i).

(** The record that [Network::deliver] hands to [onMessageReceived]. *)
Definition received_of (m : Message.t) : Node.ReceivedMessage :=
  Node.mkReceived (Message.id m) (Message.from m)
    (Network.xorCipher (Message.cipherText m) Network.encryptionKey_)
    (Message.deliverTime m) (Message.deliverTime m - Message.sendTime m).

(** The mailbox at index [i] after [msgs] were delivered in order: the
    records of those addressed to [i] are appended. *)
Definition mail_for (net : Network.t) (i : nat) (msgs : list Message.t)
    : list Node.ReceivedMessage :=
  map received_of (filter (addressed_to net i) msgs).

Definition extend_inbox (extra : list Node.ReceivedMessage) (n : Node.t) : Node.t :=
  Node.mk (Node.name_ n) (Node.inbox_ n ++ extra).

(** [deliver] over a list of messages, in order. *)
Definition deliver_all (net : Network.t) (msgs : list Message.t) (now : R)
    : Network.t :=
  fold_left (fun n m => Network.deliver n m now) msgs net.

(** The same network with another dropped set, with another in-transit
    set. *)
Definition with_dropped (net : Network.t) (dr : list Message.t) : Network.t :=
  Network.mk (Network.logFile_ net) (Network.baseLatency_ net)
    (Network.jitter_ net) (Network.dropProb_ net) (Network.nodes_ net)
    (Network.nodeIndex_ net) (Network.inTransit_ net) dr
    (Network.nextMessageId_ net) (Network.deliveredCount_ net)
    (Network.totalLatency_ net) (Network.rng_ net) (Network.cout_ net).

Definition with_inTransit (net : Network.t) (tr : list Message.t) : Network.t :=
  Network.mk (Network.logFile_ net) (Network.baseLatency_ net)
    (Network.jitter_ net) (Network.dropProb_ net) (Network.nodes_ net)
    (Network.nodeIndex_ net) tr (Network.droppedMessages_ net)
    (Network.nextMessageId_ net) (Network.deliveredCount_ net)
    (Network.totalLatency_ net) (Network.rng_ net) (Network.cout_ net).

(** The number of [DELIVERY FAILED] lines on the console. *)
Definition is_failure (l : Network.ConsoleLine) : bool :=
  match l with
  | Network.DeliveryFailedLine _ _ _ => true
  | _ => false
  end.

Definition failures (cout : list Network.ConsoleLine) : nat :=
  List.length (List.filter is_failure cout).

(** The sum of the realized latencies of a list of messages. *)
Fixpoint latency_sum (msgs : list Message.t) : R :=
  match msgs with
  | [] => 0
  | m :: rest => (Message.deliverTime m - Message.sendTime m) + latency_sum rest
  end.

(** The two draws of one [sendMessage]: the Bernoulli draw compared with
    [dropProb_], and the latency sampled after it. *)
Definition next_uniform01 (net : Network.t) : R :=
  fst (Rng.uniform_real 0 1 (Network.rng_ net)).

Definition next_latency (net : Network.t) : R :=
  fst (Network.sampleLatency net (snd (Rng.uniform_real 0 1 (Network.rng_ net)))).

(** The message that [sendMessage] builds. *)
Definition sent_message (net : Network.t) (from to payload : string)
    (currentTime : R) (dropped : bool) : Message.t :=
  Message.mk (Network.nextMessageId_ net) from to payload
    (Network.xorCipher payload Network.encryptionKey_) currentTime
    (currentTime + next_latency net) false dropped.

(** Two networks in the same delivery state: nodes with their mailboxes,
    name index, delivered count and cumulative latency. *)
Definition same_delivery (a b : Network.t) : Prop :=
  Network.nodes_ a = Network.nodes_ b
  /\ Network.nodeIndex_ a = Network.nodeIndex_ b
  /\ Network.deliveredCount_ a = Network.deliveredCount_ b
  /\ Network.totalLatency_ a = Network.totalLatency_ b.

(** Every name of the index leads to a node of [nodes_] that bears it. *)
Definition index_ok (net : Network.t) : Prop :=
  forall (name : string) (i : nat),
    Network.nodeIndex_ net !! name = Some i ->
    exists n : Node.t, Network.nodes_ net !! i = Some n /\ Node.name_ n = name.

(** Calls on a network, and a sequence of calls run in order. *)
Inductive Call : Type :=
| CallAddNode (name : string)
| CallSend (from to payload : string) (currentTime : R)
| CallStep (currentTime : R).

Definition call (net : Network.t) (c : Call) : Network.t :=
  match c with
  | CallAddNode name => Network.addNode net name
  | CallSend from to payload currentTime =>
      Network.sendMessage net from to payload currentTime
  | CallStep currentTime => Network.step net currentTime
  end.

Definition run (net : Network.t) (calls : list Call) : Network.t :=
  fold_left call calls net.

Definition is_send (c : Call) : bool :=
  match c with CallSend _ _ _ _ => true | _ => false end.

Definition sends (calls : list Call) : nat :=
  List.length (List.filter is_send calls).

(** The ledger of a network: messages counted as delivered, dropped,
    still queued, or reported as failed deliveries. *)
Definition accounted (net : Network.t) : Z :=
  (Network.deliveredCount_ net
   + Z.of_nat (List.length (Network.droppedMessages_ net))
   + Z.of_nat (List.length (Network.inTransit_ net))
   + Z.of_nat (failures (Network.cout_ net)))%Z.

(** The calls of Scenario B up to the send. *)
Definition scenarioB_calls : list Call :=
  [CallAddNode "A"; CallAddNode "B"; CallSend "A" "B" "hi" 0].

(** A row of the log written by [sendMessage] for the telemetry of the
    drone [d] at time [now]; a row written by [deliver] at time [now]. *)
Definition telemetry_row (fixed2 : R -> string) (now : R) (d : Drone.t)
    (row : Network.LogRow) : Prop :=
  (Network.row_event row = "send"%string
   \/ Network.row_event row = "drop_scheduled"%string)
  /\ Network.row_time row = now
  /\ Network.row_from row = Simulator.droneNodeName (Drone.mId d)
  /\ Network.row_to row = "HQ"%string
  /\ Network.row_payload row = Simulator.statusPayload fixed2 d.

Definition deliver_row (now : R) (row : Network.LogRow) : Prop :=
  Network.row_event row = "deliver"%string /\ Network.row_time row = now.

(** The telemetry of one step: every drone reports, in order. *)
Definition report_all (fixed2 : R -> string) (comms : Network.t)
    (drones : list Drone.t) (now : R) : Network.t :=
  fold_left (fun c d => Simulator.sendDroneStatus fixed2 c d now) drones comms.

(** Scenarios B and C: a network with [baseLatency = 1], no jitter, no
    drops, the nodes "A" and "B", and a generator whose draws are all 1/2. *)
Definition scenario_seed : nat -> R := fun _ => 1 / 2.

Definition scenario_net : Network.t :=
  Network.addNode
    (Network.addNode (Network.new 1 0 0 scenario_seed) "A") "B".

(** A drone of mass 2 without speed limit, lying on the floor at x = 50. *)
Definition resting_drone : Drone.t :=
  Drone.new 0 (Drone.mkParams 2 10 0) (Vector2.mk 50 0).

(** Every canonical draw of the generator lies in [[0,1)]. *)
Definition draws_in_range (g : Rng.t) : Prop :=
  forall k : nat, 0 <= Rng.source g k < 1.

(** The parameters of a network and the stream behind its generator. *)
Definition same_setup (a b : Network.t) : Prop :=
  Network.baseLatency_ a = Network.baseLatency_ b
  /\ Network.jitter_ a = Network.jitter_ b
  /\ Network.dropProb_ a = Network.dropProb_ b
  /\ Rng.source (Network.rng_ a) = Rng.source (Network.rng_ b).

(** The identifiers of the records in the mailboxes of [nodes], and all
    the identifiers a network holds: queued, dropped, received. *)
Definition record_ids (nodes : list Node.t) : list Z :=
  nodes ≫= (fun n => Node.id <$> Node.inbox_ n).

Definition all_ids (net : Network.t) : list Z :=
  (Message.id <$> Network.inTransit_ net)
  ++ (Message.id <$> Network.droppedMessages_ net)
  ++ record_ids (Network.nodes_ net).

(** [b] continues the history of [a]: the dropped set and the log file of
    [a] are prefixes of those of [b], every node of [a] is still at its
    index in [b] with its name and with its mailbox as a prefix, and the
    counters have not gone down. *)
Definition continues (a b : Network.t) : Prop :=
  Network.droppedMessages_ a `prefix_of` Network.droppedMessages_ b
  /\ Network.logFile_ a `prefix_of` Network.logFile_ b
  /\ (forall (i : nat) (n : Node.t),
        Network.nodes_ a !! i = Some n ->
        exists n' : Node.t,
          Network.nodes_ b !! i = Some n'
          /\ Node.name_ n' = Node.name_ n
          /\ Node.inbox_ n `prefix_of` Node.inbox_ n')
  /\ (Network.deliveredCount_ a <= Network.deliveredCount_ b)%Z
  /\ (Network.nextMessageId_ a <= Network.nextMessageId_ b)%Z.



(** Calls on a simulator through its public functions, and a sequence of
    them run in order. *)
Inductive Command : Type :=
| CmdAddDrone (parameters : Drone.DroneParams) (startPos : Vector2.t)
| CmdThrustDirection (droneId : Z) (direction : Vector2.t)
| CmdThrustForce (droneId : Z) (force : Vector2.t)
| CmdClearThrust (droneId : Z)
| CmdStep (dt : R).

Definition command (fixed2 : R -> string) (sim : Simulator.t) (c : Command)
    : Simulator.t :=
  match c with
  | CmdAddDrone parameters startPos => fst (Simulator.addDrone sim parameters startPos)
  | CmdThrustDirection droneId direction =>
      Simulator.setDroneThrustDirection sim droneId direction
  | CmdThrustForce droneId force => Simulator.setDroneThrustForce sim droneId force
  | CmdClearThrust droneId => Simulator.clearDroneThrust sim droneId
  | CmdStep dt => Simulator.step fixed2 sim dt
  end.

Definition operate (fixed2 : R -> string) (sim : Simulator.t) (cmds : list Command)
    : Simulator.t :=
  fold_left (command fixed2) cmds sim.

(** The name the simulator gives to the node at index [i]: "HQ" first,
    then the drones in the order of their identifiers. *)
Definition node_name_at (i : nat) : string :=
  match i with
  | O => "HQ"%string
  | S k => Simulator.droneNodeName (Z.of_nat k)
  end.

(** The registry of a simulator is in step with its drones. *)
Definition registry_in_step (sim : Simulator.t) : Prop :=
  (forall (i : nat) (d : Drone.t),
      Simulator.mDrones sim !! i = Some d -> Drone.mId d = Z.of_nat i)
  /\ List.length (Network.nodes_ (Simulator.mComms sim)) =
       S (List.length (Simulator.mDrones sim))
  /\ (forall i : nat,
        (i < List.length (Network.nodes_ (Simulator.mComms sim)))%nat ->
        Network.getNode (Simulator.mComms sim) (node_name_at i) = Some i)
  /\ (forall (i : nat) (n : Node.t),
        Network.nodes_ (Simulator.mComms sim) !! i = Some n ->
        Node.name_ n = node_name_at i).

(** All the traffic of a simulator goes to "HQ", and arrives. *)
Definition only_HQ_receives (comms : Network.t) : Prop :=
  (forall m : Message.t, m ∈ Network.inTransit_ comms -> Message.to m = "HQ"%string)
  /\ failures (Network.cout_ comms) = 0%nat
  /\ (forall (i : nat) (n : Node.t),
        i <> 0%nat -> Network.nodes_ comms !! i = Some n -> Node.inbox_ n = []).

(** * Properties *)

(** Case analysis on every comparison of doubles left in the goal. *)
Ltac case_compare :=
  repeat (match goal with
          | |- context [Rlt_dec ?a ?b] => destruct (Rlt_dec a b)
          | |- context [Rgt_dec ?a ?b] => destruct (Rgt_dec a b)
          | |- context [Rge_dec ?a ?b] => destruct (Rge_dec a b)
          | |- context [Rle_dec ?a ?b] => destruct (Rle_dec a b)
          end; simpl in *).

(** ** Vectors *)

Section VectorFacts.

Import Vector2.

Lemma length_nonneg (a : Vector2.t) : 0 <= length a.
Proof. apply sqrt_pos. Qed.




End VectorFacts.

(** ** The force command *)

Section ThrustFacts.

Import Drone.






End ThrustFacts.

Section ThrustClaims.

Import Drone.




(** The length of the thrust of that counterexample: the double next
    above 10, printed 10.000000000000002. *)
Example binary64_rescaled_length :
  Binary64.length
    (Binary64.mThrust (Binary64.setThrustForce binary64_drone binary64_force))
  = 0x1.4000000000001p+3%float.
Proof. vm_compute. reflexivity. Qed.

(** Other exact values that the binary64 functions miss by rounding:
    the length of [normalized (1,1)] is below 1, and the thrust of
    [setThrustDirection] along (2,3) on that drone is longer than its
    [maxThrust] of 10. *)
Example binary64_normalized_below_one :
  PrimFloat.ltb
    (Binary64.length (Binary64.normalized (Binary64.mkVector2 1 1))) 1 = true.
Proof. vm_compute. reflexivity. Qed.

Example binary64_direction_above_max :
  PrimFloat.ltb 10
    (Binary64.length
       (Binary64.mThrust
          (Binary64.setThrustDirection binary64_drone (Binary64.mkVector2 2 3))))
  = true.
Proof. vm_compute. reflexivity. Qed.

End ThrustClaims.

(** ** The physics update *)

Section UpdateClaims.

Import Drone.

Lemma boundary_position_x (d : Drone.t) (world : World.t) :
  0 <= World.width world ->
  Vector2.x (mPosition (boundary d world)) =
    clamp_axis (Vector2.x (mPosition d)) (World.width world).
Proof.
  intros Hw. unfold boundary, clamp_axis. case_compare; try reflexivity; lra.
Qed.

Lemma boundary_position_y (d : Drone.t) (world : World.t) :
  0 <= World.height world ->
  Vector2.y (mPosition (boundary d world)) =
    clamp_axis (Vector2.y (mPosition d)) (World.height world).
Proof.
  intros Hh. unfold boundary, clamp_axis. case_compare; try reflexivity; lra.
Qed.

Lemma boundary_velocity_x (d : Drone.t) (world : World.t) :
  0 <= World.width world ->
  Vector2.x (mVelocity (boundary d world)) =
    if Rlt_dec (Vector2.x (mPosition d)) 0 then 0
    else if Rgt_dec (Vector2.x (mPosition d)) (World.width world) then 0
    else Vector2.x (mVelocity d).
Proof.
  intros Hw. unfold boundary. case_compare; try reflexivity; lra.
Qed.

Lemma boundary_velocity_y (d : Drone.t) (world : World.t) :
  0 <= World.height world ->
  Vector2.y (mVelocity (boundary d world)) =
    if Rlt_dec (Vector2.y (mPosition d)) 0 then 0
    else if Rgt_dec (Vector2.y (mPosition d)) (World.height world) then 0
    else Vector2.y (mVelocity d).
Proof.
  intros Hh. unfold boundary. case_compare; try reflexivity; lra.
Qed.

Lemma clamp_axis_range (p extent : R) :
  0 <= extent -> 0 <= clamp_axis p extent <= extent.
Proof.
  intros He. unfold clamp_axis.
  destruct (Rlt_dec p 0); [lra|]. destruct (Rgt_dec p extent); lra.
Qed.

(** C7.  In a world with [width >= 0] and [height >= 0], after
    [Drone::update] the position lies in [[0,width] x [0,height]]; each
    coordinate is the clamp of the coordinate reached by the integration,
    computed from that axis alone; and on an axis where a clamp fired the
    velocity component is exactly 0, while on an axis where none fired the
    velocity component of the integration is kept. *)
Theorem update_stays_in_world (d : Drone.t) (dt : R) (world : World.t) :
  0 <= World.width world -> 0 <= World.height world ->
  let reached := integrate d dt world in
  let after := update d dt world in
  (0 <= Vector2.x (mPosition after) <= World.width world)
  /\ (0 <= Vector2.y (mPosition after) <= World.height world)
  /\ Vector2.x (mPosition after) =
       clamp_axis (Vector2.x (mPosition reached)) (World.width world)
  /\ Vector2.y (mPosition after) =
       clamp_axis (Vector2.y (mPosition reached)) (World.height world)
  /\ (clamp_fired (Vector2.x (mPosition reached)) (World.width world) ->
      Vector2.x (mVelocity after) = 0)
  /\ (clamp_fired (Vector2.y (mPosition reached)) (World.height world) ->
      Vector2.y (mVelocity after) = 0)
  /\ (~ clamp_fired (Vector2.x (mPosition reached)) (World.width world) ->
      Vector2.x (mVelocity after) = Vector2.x (mVelocity reached))
  /\ (~ clamp_fired (Vector2.y (mPosition reached)) (World.height world) ->
      Vector2.y (mVelocity after) = Vector2.y (mVelocity reached)).
Proof.
  intros Hw Hh reached after. subst after. unfold update. fold reached.
  rewrite boundary_position_x, boundary_position_y by assumption.
  rewrite boundary_velocity_x, boundary_velocity_y by assumption.
  unfold clamp_fired.
  split; [apply clamp_axis_range; assumption|].
  split; [apply clamp_axis_range; assumption|].
  split; [reflexivity|]. split; [reflexivity|].
  repeat split; intros H; case_compare; try reflexivity; lra.
Qed.

Lemma update_stays_in_world_witness :
  0 <= Vector2.x (mPosition (update (new 0 scenarioA_params scenarioA_start)
                                1 scenarioA_world))
    <= World.width scenarioA_world.
Proof.
  apply (update_stays_in_world (new 0 scenarioA_params scenarioA_start) 1
           scenarioA_world); simpl; lra.
Defined.

End UpdateClaims.

(** ** Scenario A *)

Section ScenarioA.

Variable fixed2 : R -> string.
Variable seed : nat -> R.

(** The agent of Scenario A after [Drone::update] with [dt = 1]. *)
Lemma scenarioA_update :
  Drone.update (Drone.clearThrust (Drone.new 0 scenarioA_params scenarioA_start))
      1 scenarioA_world =
    Drone.mk 0 scenarioA_params (Vector2.mk 50 40.2) (Vector2.mk 0 (-9.8))
      (Vector2.mk 0 0).
Proof.
  unfold Drone.update, Drone.integrate; simpl.
  destruct (Rgt_dec 0 0) as [Hc|_]; [lra|].
  unfold Drone.boundary, Drone.with_motion, Vector2.add, Vector2.scale; simpl.
  case_compare; try lra.
  f_equal; f_equal; lra.
Qed.

Lemma step_drones (sim : Simulator.t) (dt : R) :
  Simulator.mDrones (Simulator.step fixed2 sim dt) =
    map (fun d => Drone.update d dt (Simulator.mWorld sim)) (Simulator.mDrones sim).
Proof. unfold Simulator.step. destruct (Rge_dec _ _); reflexivity. Qed.

(** C6.  Scenario A: gravity [(0,-9.8)], a world of 100 by 100, one agent
    of mass 1, maxThrust 10, maxSpeed 0, added at [(50,50)], thrust
    cleared; after one [Simulator::step] with [dt = 1] its velocity is
    [(0,-9.8)] and its position is [(50,40.2)]. *)
Theorem scenarioA_one_step :
  exists d : Drone.t,
    Simulator.mDrones
      (Simulator.step fixed2
         (Simulator.clearDroneThrust
            (fst (Simulator.addDrone (Simulator.new scenarioA_world seed)
                    scenarioA_params scenarioA_start))
            (snd (Simulator.addDrone (Simulator.new scenarioA_world seed)
                    scenarioA_params scenarioA_start)))
         1) = [d]
    /\ Drone.mVelocity d = Vector2.mk 0 (-9.8)
    /\ Drone.mPosition d = Vector2.mk 50 40.2.
Proof.
  eexists. split.
  - rewrite step_drones.
    unfold Simulator.clearDroneThrust, Simulator.onDrone. simpl.
    change (Z.of_nat 0) with 0%Z.
    rewrite scenarioA_update. reflexivity.
  - split; reflexivity.
Qed.

End ScenarioA.

(** ** The obfuscation *)

Section CipherFacts.

Import Network.

Lemma xor_char_involutive (c k : ascii) : xor_char (xor_char c k) k = c.
Proof.
  destruct c as [c0 c1 c2 c3 c4 c5 c6 c7], k as [k0 k1 k2 k3 k4 k5 k6 k7].
  simpl. repeat rewrite xorb_assoc, xorb_nilpotent, xorb_false_r. reflexivity.
Qed.

Lemma xorCipher_from_involutive (key text : string) (i : nat) :
  xorCipher_from i (xorCipher_from i text key) key = text.
Proof.
  revert i. induction text as [|c rest IH]; intros i; simpl.
  - reflexivity.
  - rewrite xor_char_involutive, IH. reflexivity.
Qed.

Lemma xorCipher_from_length (key text : string) (i : nat) :
  String.length (xorCipher_from i text key) = String.length text.
Proof.
  revert i. induction text as [|c rest IH]; intros i; simpl; [|rewrite IH]; reflexivity.
Qed.

Lemma xorCipher_involutive (text key : string) :
  xorCipher (xorCipher text key) key = text.
Proof. apply xorCipher_from_involutive. Qed.

(** The obfuscation does change the bytes: "hi" on the wire. *)
Example xorCipher_hi :
  xorCipher "hi" encryptionKey_ = String "="%char (String ":"%char EmptyString).
Proof. reflexivity. Qed.

End CipherFacts.

(** ** Delivery *)

Section DeliverFacts.

Import Network.

Lemma node_eta (n : Node.t) : Node.mk (Node.name_ n) (Node.inbox_ n ++ []) = n.
Proof. destruct n; simpl. rewrite app_nil_r. reflexivity. Qed.

Lemma deliver_unregistered (net : t) (msg : Message.t) (now : R) :
  getNode net (Message.to msg) = None ->
  deliver net msg now =
    mk (logFile_ net) (baseLatency_ net) (jitter_ net) (dropProb_ net)
       (nodes_ net) (nodeIndex_ net) (inTransit_ net) (droppedMessages_ net)
       (nextMessageId_ net) (deliveredCount_ net) (totalLatency_ net) (rng_ net)
       (cout_ net ++ [DeliveryFailedLine now (Message.to msg) (Message.id msg)]).
Proof. intros H. unfold deliver. rewrite H. reflexivity. Qed.

Lemma deliver_nodeIndex (net : t) (msg : Message.t) (now : R) :
  nodeIndex_ (deliver net msg now) = nodeIndex_ net.
Proof. unfold deliver. destruct (getNode net _); reflexivity. Qed.

Lemma deliver_getNode (net : t) (msg : Message.t) (now : R) (name : string) :
  getNode (deliver net msg now) name = getNode net name.
Proof. unfold getNode. rewrite deliver_nodeIndex. reflexivity. Qed.

Lemma deliver_inTransit (net : t) (msg : Message.t) (now : R) :
  inTransit_ (deliver net msg now) = inTransit_ net.
Proof. unfold deliver. destruct (getNode net _); reflexivity. Qed.

Lemma deliver_dropped (net : t) (msg : Message.t) (now : R) :
  droppedMessages_ (deliver net msg now) = droppedMessages_ net.
Proof. unfold deliver. destruct (getNode net _); reflexivity. Qed.

Lemma deliver_nextMessageId (net : t) (msg : Message.t) (now : R) :
  nextMessageId_ (deliver net msg now) = nextMessageId_ net.
Proof. unfold deliver. destruct (getNode net _); reflexivity. Qed.

Lemma deliver_with_dropped (net : t) (dr : list Message.t) (msg : Message.t) (now : R) :
  deliver (with_dropped net dr) msg now = with_dropped (deliver net msg now) dr.
Proof.
  unfold deliver, getNode. simpl. destruct (nodeIndex_ net !! _); reflexivity.
Qed.

Lemma deliver_with_inTransit (net : t) (tr : list Message.t) (msg : Message.t) (now : R) :
  deliver (with_inTransit net tr) msg now = with_inTransit (deliver net msg now) tr.
Proof.
  unfold deliver, getNode. simpl. destruct (nodeIndex_ net !! _); reflexivity.
Qed.

(** One delivery, seen from the node at index [i]. *)
Lemma deliver_node (net : t) (msg : Message.t) (now : R) (i : nat) :
  nodes_ (deliver net msg now) !! i =
    extend_inbox (mail_for net i [msg]) <$> nodes_ net !! i.
Proof.
  unfold deliver, mail_for.
  destruct (getNode net (Message.to msg)) as [dest|] eqn:Hdest; simpl.
  - destruct (decide (dest = i)) as [->|Hne].
    + rewrite list_lookup_alter_eq.
      rewrite filter_cons_True by exact Hdest. reflexivity.
    + rewrite list_lookup_alter_ne by exact Hne.
      rewrite filter_cons_False by (unfold addressed_to; congruence). simpl.
      destruct (nodes_ net !! i) as [n|]; simpl; [|reflexivity].
      unfold extend_inbox. rewrite node_eta. reflexivity.
  - rewrite filter_cons_False by (unfold addressed_to; congruence). simpl.
    destruct (nodes_ net !! i) as [n|]; simpl; [|reflexivity].
    unfold extend_inbox. rewrite node_eta. reflexivity.
Qed.

(** The counters after one delivery. *)
Lemma deliver_count (net : t) (msg : Message.t) (now : R) :
  deliveredCount_ (deliver net msg now) =
    (deliveredCount_ net + Z.of_nat (List.length (filter (registered net) [msg])))%Z.
Proof.
  unfold deliver, registered.
  destruct (getNode net (Message.to msg)) as [dest|] eqn:Hdest; simpl.
  - rewrite filter_cons_True by (rewrite Hdest; eauto). reflexivity.
  - rewrite filter_cons_False by (rewrite Hdest; intros [? ?]; discriminate).
    simpl. lia.
Qed.

End DeliverFacts.

(** ** The loop of [Network::step] *)

Section StepFacts.

Import Network.

Lemma deliver_all_cons (net : t) (m : Message.t) (msgs : list Message.t) (now : R) :
  deliver_all net (m :: msgs) now = deliver_all (deliver net m now) msgs now.
Proof. reflexivity. Qed.

Lemma deliver_all_getNode (net : t) (msgs : list Message.t) (now : R) (name : string) :
  getNode (deliver_all net msgs now) name = getNode net name.
Proof.
  revert net. induction msgs as [|m msgs IH]; intros net; [reflexivity|].
  rewrite deliver_all_cons, IH. apply deliver_getNode.
Qed.

Lemma deliver_all_nodeIndex (net : t) (msgs : list Message.t) (now : R) :
  nodeIndex_ (deliver_all net msgs now) = nodeIndex_ net.
Proof.
  revert net. induction msgs as [|m msgs IH]; intros net; [reflexivity|].
  rewrite deliver_all_cons, IH. apply deliver_nodeIndex.
Qed.

Lemma deliver_all_dropped (net : t) (msgs : list Message.t) (now : R) :
  droppedMessages_ (deliver_all net msgs now) = droppedMessages_ net.
Proof.
  revert net. induction msgs as [|m msgs IH]; intros net; [reflexivity|].
  rewrite deliver_all_cons, IH. apply deliver_dropped.
Qed.

Lemma deliver_all_nextMessageId (net : t) (msgs : list Message.t) (now : R) :
  nextMessageId_ (deliver_all net msgs now) = nextMessageId_ net.
Proof.
  revert net. induction msgs as [|m msgs IH]; intros net; [reflexivity|].
  rewrite deliver_all_cons, IH. apply deliver_nextMessageId.
Qed.

Lemma deliver_all_with_dropped (net : t) (dr msgs : list Message.t) (now : R) :
  deliver_all (with_dropped net dr) msgs now =
    with_dropped (deliver_all net msgs now) dr.
Proof.
  revert net. induction msgs as [|m msgs IH]; intros net; [reflexivity|].
  rewrite !deliver_all_cons, deliver_with_dropped, IH. reflexivity.
Qed.

Lemma deliver_all_with_inTransit (net : t) (tr msgs : list Message.t) (now : R) :
  deliver_all (with_inTransit net tr) msgs now =
    with_inTransit (deliver_all net msgs now) tr.
Proof.
  revert net. induction msgs as [|m msgs IH]; intros net; [reflexivity|].
  rewrite !deliver_all_cons, deliver_with_inTransit, IH. reflexivity.
Qed.

Lemma mail_for_cons (net : t) (i : nat) (m : Message.t) (msgs : list Message.t) :
  mail_for net i (m :: msgs) = mail_for net i [m] ++ mail_for net i msgs.
Proof.
  unfold mail_for. rewrite <- map_app, <- filter_app. reflexivity.
Qed.

Lemma mail_for_deliver (net : t) (m : Message.t) (now : R) (i : nat)
    (msgs : list Message.t) :
  mail_for (deliver net m now) i msgs = mail_for net i msgs.
Proof.
  unfold mail_for. f_equal. apply list_filter_iff.
  intros x. unfold addressed_to. rewrite deliver_getNode. reflexivity.
Qed.

Lemma registered_deliver (net : t) (m : Message.t) (now : R) (msgs : list Message.t) :
  filter (registered (deliver net m now)) msgs = filter (registered net) msgs.
Proof.
  apply list_filter_iff. intros x. unfold registered.
  rewrite deliver_getNode. reflexivity.
Qed.

(** The node at index [i] after a run of deliveries. *)
Lemma deliver_all_node (net : t) (msgs : list Message.t) (now : R) (i : nat) :
  nodes_ (deliver_all net msgs now) !! i =
    extend_inbox (mail_for net i msgs) <$> nodes_ net !! i.
Proof.
  revert net. induction msgs as [|m msgs IH]; intros net.
  - simpl. destruct (nodes_ net !! i) as [n|]; simpl; [|reflexivity].
    unfold extend_inbox, mail_for. simpl. rewrite node_eta. reflexivity.
  - rewrite deliver_all_cons, IH, deliver_node, mail_for_deliver.
    rewrite (mail_for_cons net i m msgs).
    destruct (nodes_ net !! i) as [n|]; simpl; [|reflexivity].
    unfold extend_inbox; simpl. rewrite app_assoc. reflexivity.
Qed.

Lemma deliver_all_count (net : t) (msgs : list Message.t) (now : R) :
  deliveredCount_ (deliver_all net msgs now) =
    (deliveredCount_ net + Z.of_nat (List.length (filter (registered net) msgs)))%Z.
Proof.
  revert net. induction msgs as [|m msgs IH]; intros net.
  - simpl. lia.
  - rewrite deliver_all_cons, IH, deliver_count, registered_deliver.
    change (m :: msgs) with ([m] ++ msgs).
    rewrite (filter_app (registered net) [m] msgs), length_app. lia.
Qed.

Lemma step_loop_spec (msgs : list Message.t) (now : R) (net : t)
    (remaining : list Message.t) :
  step_loop msgs now net remaining =
    (deliver_all net (filter (due now) msgs) now,
     remaining ++ filter (travelling now) msgs).
Proof.
  revert net remaining. induction msgs as [|m msgs IH]; intros net remaining.
  - simpl. rewrite app_nil_r. reflexivity.
  - simpl. destruct (Rle_dec (Message.deliverTime m) now) as [Hdue|Hnot].
    + rewrite IH, filter_cons_True by exact Hdue.
      rewrite (filter_cons_False (travelling now)) by (unfold travelling; lra).
      reflexivity.
    + rewrite IH, filter_cons_False by exact Hnot.
      rewrite (filter_cons_True (travelling now)) by (unfold travelling; lra).
      rewrite <- app_assoc. reflexivity.
Qed.

(** [Network::step] is the delivery of the due messages, in queue order,
    followed by the replacement of the queue by those still travelling. *)
Lemma step_spec (net : t) (now : R) :
  step net now =
    with_inTransit (deliver_all net (filter (due now) (inTransit_ net)) now)
      (filter (travelling now) (inTransit_ net)).
Proof. unfold step. rewrite step_loop_spec. reflexivity. Qed.

End StepFacts.

(** ** Sending and registering leave the queue in place *)

Section QueueFacts.

Import Network.

Lemma sendMessage_inTransit_incl (net : t) (from to payload : string) (now : R)
    (m : Message.t) :
  m ∈ inTransit_ net -> m ∈ inTransit_ (sendMessage net from to payload now).
Proof.
  intros Hin. unfold sendMessage, sampleLatency, Rng.uniform_real; simpl.
  destruct (Rlt_dec _ _); simpl; [exact Hin|].
  apply elem_of_app. left. exact Hin.
Qed.

Lemma step_inTransit (net : t) (now : R) :
  inTransit_ (step net now) = filter (travelling now) (inTransit_ net).
Proof. rewrite step_spec. reflexivity. Qed.

Lemma step_nodes (net : t) (now : R) (i : nat) :
  nodes_ (step net now) !! i =
    extend_inbox (mail_for net i (filter (due now) (inTransit_ net)))
      <$> nodes_ net !! i.
Proof. rewrite step_spec. simpl. apply deliver_all_node. Qed.

Lemma call_keeps_travelling (net : t) (c : Call) (m : Message.t) :
  m ∈ inTransit_ net ->
  (forall now : R, c = CallStep now -> travelling now m) ->
  m ∈ inTransit_ (call net c).
Proof.
  intros Hin Hlate. destruct c as [name|from to payload now|now]; simpl.
  - exact Hin.
  - apply sendMessage_inTransit_incl. exact Hin.
  - rewrite step_inTransit. apply list_elem_of_filter. split; [|exact Hin].
    apply Hlate. reflexivity.
Qed.

Lemma run_keeps_travelling (calls : list Call) (net : t) (m : Message.t) :
  m ∈ inTransit_ net ->
  (forall now : R, CallStep now ∈ calls -> travelling now m) ->
  m ∈ inTransit_ (run net calls).
Proof.
  revert net. induction calls as [|c calls IH]; intros net Hin Hlate.
  - exact Hin.
  - simpl. apply IH.
    + apply call_keeps_travelling; [exact Hin|].
      intros now ->. apply Hlate. left.
    + intros now Hc. apply Hlate. right. exact Hc.
Qed.

End QueueFacts.

Section StepClaims.

Import Network.

(** C1.  One call [step net now]:
    - the queue becomes the messages with [deliverTime > now], unchanged
      and in their order; so every due message leaves the queue (delivered,
      or discarded when its recipient is unknown) and every other stays;
    - the dropped set is not modified, and it is not read: the call
      commutes with any replacement of the dropped set;
    - a due message addressed to a node gets its record into that node's
      mailbox in this very call;
    - every record that is new in a mailbox comes from a message that was
      due, so its [deliverTime] is at most [now];
    - across any later calls, a queued message stays queued as long as
      every [step] among them has [now < deliverTime]. *)
Theorem step_delivers_exactly_the_due (net : Network.t) (now : R) :
  inTransit_ (step net now) = filter (travelling now) (inTransit_ net)
  /\ (forall m : Message.t,
        m ∈ inTransit_ net -> due now m -> m ∉ inTransit_ (step net now))
  /\ (forall m : Message.t,
        m ∈ inTransit_ net -> travelling now m -> m ∈ inTransit_ (step net now))
  /\ droppedMessages_ (step net now) = droppedMessages_ net
  /\ (forall dr : list Message.t,
        step (with_dropped net dr) now = with_dropped (step net now) dr)
  /\ (forall (m : Message.t) (i : nat) (n : Node.t),
        m ∈ inTransit_ net -> due now m -> addressed_to net i m ->
        nodes_ net !! i = Some n ->
        exists n' : Node.t,
          nodes_ (step net now) !! i = Some n'
          /\ received_of m ∈ Node.inbox_ n')
  /\ (forall (i : nat) (n n' : Node.t) (r : Node.ReceivedMessage),
        nodes_ net !! i = Some n -> nodes_ (step net now) !! i = Some n' ->
        r ∈ Node.inbox_ n' ->
        r ∈ Node.inbox_ n
        \/ exists m : Message.t,
             m ∈ inTransit_ net /\ Message.deliverTime m <= now
             /\ addressed_to net i m /\ r = received_of m)
  /\ (forall (m : Message.t) (calls : list Call),
        m ∈ inTransit_ net ->
        (forall later : R, CallStep later ∈ calls -> later < Message.deliverTime m) ->
        m ∈ inTransit_ (run net calls)).
Proof.
  split; [apply step_inTransit|].
  split.
  { intros m _ Hdue. rewrite step_inTransit. intros Hin.
    apply list_elem_of_filter in Hin as [Htr _].
    unfold travelling, due in *. lra. }
  split.
  { intros m Hin Htr. rewrite step_inTransit.
    apply list_elem_of_filter. split; assumption. }
  split.
  { rewrite step_spec. simpl. apply deliver_all_dropped. }
  split.
  { intros dr. rewrite !step_spec. simpl.
    rewrite deliver_all_with_dropped. reflexivity. }
  split.
  { intros m i n Hin Hdue Haddr Hn.
    exists (extend_inbox (mail_for net i (filter (due now) (inTransit_ net))) n).
    split; [rewrite step_nodes, Hn; reflexivity|].
    simpl. apply elem_of_app. right. unfold mail_for.
    apply list_elem_of_fmap. exists m. split; [reflexivity|].
    apply list_elem_of_filter. split; [exact Haddr|].
    apply list_elem_of_filter. split; assumption. }
  split.
  { intros i n n' r Hn Hn' Hr.
    rewrite step_nodes, Hn in Hn'. simpl in Hn'. injection Hn' as <-.
    simpl in Hr. apply elem_of_app in Hr as [Hold|Hnew]; [left; exact Hold|].
    right. unfold mail_for in Hnew.
    apply list_elem_of_fmap in Hnew as (m & -> & Hm).
    apply list_elem_of_filter in Hm as [Haddr Hm].
    apply list_elem_of_filter in Hm as [Hdue Hm].
    exists m. repeat split; assumption. }
  intros m calls Hin Hlate. apply run_keeps_travelling; assumption.
Qed.

End StepClaims.

(** ** Sending *)

Section SendFacts.

Import Network.

Lemma sendMessage_kept (net : t) (from to payload : string) (now : R) :
  ~ next_uniform01 net < dropProb_ net ->
  inTransit_ (sendMessage net from to payload now) =
    inTransit_ net ++ [sent_message net from to payload now false]
  /\ droppedMessages_ (sendMessage net from to payload now) = droppedMessages_ net
  /\ cout_ (sendMessage net from to payload now) =
       cout_ net ++ [SendLine now from to (nextMessageId_ net)
                       (String.length (xorCipher payload encryptionKey_))].
Proof.
  intros Hkeep. unfold sendMessage, sent_message, next_latency.
  unfold next_uniform01 in Hkeep.
  destruct (Rng.uniform_real 0 1 (rng_ net)) as [u g1] eqn:Hu. simpl in *.
  destruct (Rlt_dec u (dropProb_ net)); [contradiction|].
  destruct (sampleLatency net g1) as [lat g2]; simpl. auto.
Qed.

Lemma sendMessage_dropped (net : t) (from to payload : string) (now : R) :
  next_uniform01 net < dropProb_ net ->
  inTransit_ (sendMessage net from to payload now) = inTransit_ net
  /\ droppedMessages_ (sendMessage net from to payload now) =
       droppedMessages_ net ++ [sent_message net from to payload now true]
  /\ cout_ (sendMessage net from to payload now) =
       cout_ net ++ [DropScheduledLine now from to (nextMessageId_ net)
                       (String.length (xorCipher payload encryptionKey_))].
Proof.
  intros Hdrop. unfold sendMessage, sent_message, next_latency.
  unfold next_uniform01 in Hdrop.
  destruct (Rng.uniform_real 0 1 (rng_ net)) as [u g1] eqn:Hu. simpl in *.
  destruct (Rlt_dec u (dropProb_ net)); [|contradiction].
  destruct (sampleLatency net g1) as [lat g2]; simpl. auto.
Qed.

(** What a send leaves alone. *)
Lemma sendMessage_frame (net : t) (from to payload : string) (now : R) :
  nodes_ (sendMessage net from to payload now) = nodes_ net
  /\ nodeIndex_ (sendMessage net from to payload now) = nodeIndex_ net
  /\ deliveredCount_ (sendMessage net from to payload now) = deliveredCount_ net
  /\ totalLatency_ (sendMessage net from to payload now) = totalLatency_ net
  /\ nextMessageId_ (sendMessage net from to payload now) = (nextMessageId_ net + 1)%Z
  /\ baseLatency_ (sendMessage net from to payload now) = baseLatency_ net
  /\ jitter_ (sendMessage net from to payload now) = jitter_ net
  /\ dropProb_ (sendMessage net from to payload now) = dropProb_ net.
Proof.
  unfold sendMessage.
  destruct (Rng.uniform_real 0 1 (rng_ net)) as [u g1].
  destruct (Rlt_dec u (dropProb_ net));
    destruct (sampleLatency net g1) as [lat g2]; simpl; repeat split.
Qed.

End SendFacts.

(** ** Deliveries that agree on the delivery state *)

Section SameDelivery.

Import Network.

Lemma same_delivery_refl (a : t) : same_delivery a a.
Proof. repeat split. Qed.

Lemma deliver_same_delivery (a b : t) (m : Message.t) (now1 now2 : R) :
  same_delivery a b ->
  same_delivery (deliver a m now1) (deliver b m now2).
Proof.
  intros (Hn & Hi & Hc & Hl). unfold same_delivery, deliver, getNode.
  rewrite Hi. destruct (nodeIndex_ b !! Message.to m); simpl.
  - rewrite Hn, Hc, Hl. repeat split.
  - repeat split; assumption.
Qed.

Lemma deliver_all_same_delivery (msgs : list Message.t) (a b : t) (now1 now2 : R) :
  same_delivery a b ->
  same_delivery (deliver_all a msgs now1) (deliver_all b msgs now2).
Proof.
  revert a b. induction msgs as [|m msgs IH]; intros a b Hab; [exact Hab|].
  rewrite !deliver_all_cons. apply IH. apply deliver_same_delivery. exact Hab.
Qed.

Lemma deliver_all_app (net : t) (l1 l2 : list Message.t) (now : R) :
  deliver_all net (l1 ++ l2) now = deliver_all (deliver_all net l1 now) l2 now.
Proof. unfold deliver_all. apply fold_left_app. Qed.

(** A failed lookup changes nothing of the delivery state. *)
Lemma deliver_unregistered_same (net : t) (m : Message.t) (now : R) :
  getNode net (Message.to m) = None -> same_delivery (deliver net m now) net.
Proof.
  intros H. rewrite deliver_unregistered by exact H. repeat split.
Qed.

Lemma deliver_all_latency (net : t) (msgs : list Message.t) (now : R) :
  totalLatency_ (deliver_all net msgs now) =
    totalLatency_ net + latency_sum (filter (registered net) msgs).
Proof.
  revert net. induction msgs as [|m msgs IH]; intros net.
  - simpl. lra.
  - rewrite deliver_all_cons, IH, registered_deliver.
    unfold deliver, getNode.
    destruct (nodeIndex_ net !! Message.to m) as [dest|] eqn:Hdest; simpl.
    + rewrite (filter_cons_True (registered net))
        by (unfold registered, getNode; rewrite Hdest; eauto).
      simpl. lra.
    + rewrite (filter_cons_False (registered net))
        by (unfold registered, getNode; rewrite Hdest; intros [? ?]; discriminate).
      reflexivity.
Qed.

End SameDelivery.

(** ** Unknown recipients *)

Section UnknownRecipient.

Import Network.

Lemma step_skips_unregistered (net : t) (now : R) (l1 l2 : list Message.t)
    (m : Message.t) :
  inTransit_ net = l1 ++ m :: l2 -> due now m ->
  getNode net (Message.to m) = None ->
  same_delivery (step net now) (step (with_inTransit net (l1 ++ l2)) now)
  /\ inTransit_ (step net now) =
       inTransit_ (step (with_inTransit net (l1 ++ l2)) now).
Proof.
  intros Hq Hdue Hnone. rewrite !step_spec. simpl inTransit_.
  rewrite Hq, !filter_app.
  rewrite (filter_cons_True (due now)) by exact Hdue.
  rewrite (filter_cons_False (travelling now)) by (unfold travelling, due in *; lra).
  split; [|reflexivity].
  rewrite deliver_all_with_inTransit.
  assert (Hsame : same_delivery
            (deliver_all net (filter (due now) l1 ++ m :: filter (due now) l2) now)
            (deliver_all net (filter (due now) l1 ++ filter (due now) l2) now)).
  { rewrite !deliver_all_app, deliver_all_cons.
    apply deliver_all_same_delivery, deliver_unregistered_same.
    rewrite deliver_all_getNode. exact Hnone. }
  exact Hsame.
Qed.

Lemma scenarioC_run (net : t) (payload : string) :
  dropProb_ net = 0 -> baseLatency_ net = 1 -> jitter_ net = 0 ->
  inTransit_ net = [] -> getNode net "Ghost" = None ->
  0 <= next_uniform01 net ->
  step (sendMessage net "A" "Ghost" payload 0) 1 =
    with_inTransit
      (deliver (sendMessage net "A" "Ghost" payload 0)
         (sent_message net "A" "Ghost" payload 0 false) 1)
      [].
Proof.
  intros Hdrop Hbase Hjit Hq Hghost Hu.
  destruct (sendMessage_kept net "A" "Ghost" payload 0) as (Hin & _ & _); [lra|].
  rewrite step_spec, Hin, Hq. simpl app.
  assert (Hdue : due 1 (sent_message net "A" "Ghost" payload 0 false)).
  { unfold due, sent_message, next_latency, sampleLatency, Rng.uniform_real.
    simpl. rewrite Hbase, Hjit. lra. }
  rewrite (filter_cons_True (due 1)) by exact Hdue.
  rewrite (filter_cons_False (travelling 1)) by (unfold travelling, due in *; lra).
  reflexivity.
Qed.

(** C3.  A due message whose recipient is not a registered name is
    discarded without touching the delivery state.
    - [deliver] on such a message leaves the delivered count, the
      cumulative latency, every node, and the log file as they were, and
      writes one [DELIVERY FAILED] line to the console.
    - [step] on a queue that holds such a message ends in the same
      delivery state, and the same queue, as [step] on the queue without
      it.
    - Scenario C: with [dropProbability = 0], [baseLatency = 1],
      [jitter = 0], an empty queue and no node named "Ghost",
      [sendMessage "A" "Ghost" payload 0] followed by [step 1] leaves the
      delivered count, the cumulative latency and all the nodes as they
      were, empties the queue and reports the failure on the console. *)
Theorem unknown_recipient_discarded :
  (forall (net : Network.t) (msg : Message.t) (now : R),
      getNode net (Message.to msg) = None ->
      deliveredCount_ (deliver net msg now) = deliveredCount_ net
      /\ totalLatency_ (deliver net msg now) = totalLatency_ net
      /\ nodes_ (deliver net msg now) = nodes_ net
      /\ logFile_ (deliver net msg now) = logFile_ net
      /\ cout_ (deliver net msg now) =
           cout_ net ++ [DeliveryFailedLine now (Message.to msg) (Message.id msg)])
  /\ (forall (net : Network.t) (now : R) (l1 l2 : list Message.t) (m : Message.t),
        inTransit_ net = l1 ++ m :: l2 -> due now m ->
        getNode net (Message.to m) = None ->
        same_delivery (step net now) (step (with_inTransit net (l1 ++ l2)) now)
        /\ inTransit_ (step net now) =
             inTransit_ (step (with_inTransit net (l1 ++ l2)) now))
  /\ (forall (net : Network.t) (payload : string),
        dropProb_ net = 0 -> baseLatency_ net = 1 -> jitter_ net = 0 ->
        inTransit_ net = [] -> getNode net "Ghost" = None ->
        0 <= next_uniform01 net ->
        deliveredCount_ (step (sendMessage net "A" "Ghost" payload 0) 1) =
          deliveredCount_ net
        /\ totalLatency_ (step (sendMessage net "A" "Ghost" payload 0) 1) =
             totalLatency_ net
        /\ nodes_ (step (sendMessage net "A" "Ghost" payload 0) 1) = nodes_ net
        /\ inTransit_ (step (sendMessage net "A" "Ghost" payload 0) 1) = []
        /\ failures (cout_ (step (sendMessage net "A" "Ghost" payload 0) 1)) =
             S (failures (cout_ net))).
Proof.
  split; [|split].
  - intros net msg now Hnone. rewrite deliver_unregistered by exact Hnone.
    simpl. repeat split.
  - intros net now l1 l2 m. apply step_skips_unregistered.
  - intros net payload Hdrop Hbase Hjit Hq Hghost Hu.
    rewrite scenarioC_run by assumption.
    destruct (sendMessage_frame net "A" "Ghost" payload 0)
      as (Hn & Hi & Hc & Hl & _).
    destruct (sendMessage_kept net "A" "Ghost" payload 0) as (_ & _ & Hcout); [lra|].
    rewrite deliver_unregistered
      by (unfold getNode; rewrite Hi; exact Hghost).
    simpl. rewrite Hn, Hc, Hl, Hcout.
    repeat split.
    unfold failures. rewrite !List.filter_app, !length_app. simpl. lia.
Qed.

Lemma unknown_recipient_discarded_witness :
  nodes_ (step (sendMessage scenario_net "A" "Ghost" "ping" 0) 1) =
    nodes_ scenario_net
  /\ deliveredCount_ (step (sendMessage scenario_net "A" "Ghost" "ping" 0) 1) = 0%Z.
Proof.
  destruct unknown_recipient_discarded as (_ & _ & Hscenario).
  destruct (Hscenario scenario_net "ping") as (Hc & _ & Hn & _).
  - reflexivity.
  - reflexivity.
  - reflexivity.
  - reflexivity.
  - reflexivity.
  - unfold next_uniform01; simpl. unfold scenario_seed. lra.
  - split; [exact Hn | exact Hc].
Defined.

End UnknownRecipient.

(** ** Receipt times *)

Section ReceiptTime.

Import Network.

Lemma filter_agree {A : Type} (P Q : A -> Prop)
    `{!forall x, Decision (P x)} `{!forall x, Decision (Q x)} (l : list A) :
  (forall x, x ∈ l -> (P x <-> Q x)) -> filter P l = filter Q l.
Proof.
  induction l as [|a l IH]; intros Hagree; [reflexivity|].
  assert (Htail : filter P l = filter Q l).
  { apply IH. intros x Hx. apply Hagree. right. exact Hx. }
  destruct (decide (P a)) as [Hp|Hp].
  - rewrite (filter_cons_True P) by exact Hp.
    rewrite (filter_cons_True Q) by (apply Hagree; [left|exact Hp]).
    rewrite Htail. reflexivity.
  - rewrite (filter_cons_False P) by exact Hp.
    rewrite (filter_cons_False Q)
      by (intros Hq; apply Hp, Hagree; [left|exact Hq]).
    exact Htail.
Qed.

Lemma deliver_registered (net : t) (msg : Message.t) (now : R) (i : nat) (n : Node.t) :
  getNode net (Message.to msg) = Some i -> nodes_ net !! i = Some n ->
  nodes_ (deliver net msg now) !! i =
    Some (Node.mk (Node.name_ n) (Node.inbox_ n ++ [received_of msg]))
  /\ deliveredCount_ (deliver net msg now) = (deliveredCount_ net + 1)%Z
  /\ totalLatency_ (deliver net msg now) =
       totalLatency_ net + (Message.deliverTime msg - Message.sendTime msg).
Proof.
  intros Hdest Hn. unfold deliver. rewrite Hdest. simpl.
  rewrite list_lookup_alter_eq, Hn. repeat split.
Qed.

Lemma step_same_due (net : t) (now1 now2 : R) :
  (forall m : Message.t, m ∈ inTransit_ net -> (due now1 m <-> due now2 m)) ->
  same_delivery (step net now1) (step net now2)
  /\ inTransit_ (step net now1) = inTransit_ (step net now2).
Proof.
  intros Hagree. rewrite !step_spec.
  rewrite (filter_agree (due now1) (due now2)) by exact Hagree.
  rewrite (filter_agree (travelling now1) (travelling now2)).
  - split; [|reflexivity].
    apply (deliver_all_same_delivery _ net net now1 now2), same_delivery_refl.
  - intros m Hm. specialize (Hagree m Hm). unfold travelling, due in *.
    split; intros H.
    + destruct (Rle_dec (Message.deliverTime m) now2) as [Hle|Hgt]; [|lra].
      apply Hagree in Hle. lra.
    + destruct (Rle_dec (Message.deliverTime m) now1) as [Hle|Hgt]; [|lra].
      apply Hagree in Hle. lra.
Qed.

(** C10.  The record stored at delivery carries the scheduled time.
    - [deliver] to a registered node appends one record whose
      [timeReceived] is the message's [deliverTime] and whose [latency] is
      [deliverTime - sendTime]; the delivered count grows by one and the
      cumulative latency by that latency; the time of the call appears in
      none of them.
    - After [step], a mailbox is the old mailbox followed by the records
      of the due messages addressed to it, in queue order; the counters
      grow by the number, and by the scheduled latencies, of the due
      messages with a registered recipient.
    - Two calls of [step] at times for which the same queued messages
      are due end in the same delivery state and the same queue: calling
      late changes no receipt time, latency or counter. *)
Theorem receipt_carries_scheduled_time :
  (forall (net : Network.t) (msg : Message.t) (now : R) (i : nat) (n : Node.t),
      getNode net (Message.to msg) = Some i -> nodes_ net !! i = Some n ->
      exists r : Node.ReceivedMessage,
        nodes_ (deliver net msg now) !! i =
          Some (Node.mk (Node.name_ n) (Node.inbox_ n ++ [r]))
        /\ Node.id r = Message.id msg
        /\ Node.timeReceived r = Message.deliverTime msg
        /\ Node.latency r = Message.deliverTime msg - Message.sendTime msg
        /\ deliveredCount_ (deliver net msg now) = (deliveredCount_ net + 1)%Z
        /\ totalLatency_ (deliver net msg now) =
             totalLatency_ net + (Message.deliverTime msg - Message.sendTime msg))
  /\ (forall (net : Network.t) (now : R) (i : nat) (n : Node.t),
        nodes_ net !! i = Some n ->
        nodes_ (step net now) !! i =
          Some (Node.mk (Node.name_ n)
                  (Node.inbox_ n ++
                     map received_of
                       (filter (addressed_to net i)
                          (filter (due now) (inTransit_ net))))))
  /\ (forall (net : Network.t) (now : R),
        deliveredCount_ (step net now) =
          (deliveredCount_ net +
             Z.of_nat (List.length (filter (registered net)
                                      (filter (due now) (inTransit_ net)))))%Z
        /\ totalLatency_ (step net now) =
             totalLatency_ net +
               latency_sum (filter (registered net)
                              (filter (due now) (inTransit_ net))))
  /\ (forall (net : Network.t) (now late : R),
        (forall m : Message.t, m ∈ inTransit_ net -> (due now m <-> due late m)) ->
        same_delivery (step net now) (step net late)
        /\ inTransit_ (step net now) = inTransit_ (step net late)).
Proof.
  split; [|split; [|split]].
  - intros net msg now i n Hdest Hn.
    destruct (deliver_registered net msg now i n Hdest Hn) as (Hnode & Hc & Hl).
    exists (received_of msg). repeat split; assumption.
  - intros net now i n Hn. rewrite step_nodes, Hn. reflexivity.
  - intros net now. rewrite step_spec. simpl.
    rewrite deliver_all_count, deliver_all_latency. split; reflexivity.
  - intros net now late. apply step_same_due.
Qed.

End ReceiptTime.

(** ** Scenario B *)

Section ScenarioB.

Import Network.

Lemma scenarioB_queue :
  inTransit_ (sendMessage scenario_net "A" "B" "hi" 0) =
    [sent_message scenario_net "A" "B" "hi" 0 false].
Proof.
  destruct (sendMessage_kept scenario_net "A" "B" "hi" 0) as (Hq & _).
  - unfold next_uniform01; simpl. unfold scenario_seed. lra.
  - exact Hq.
Qed.

Lemma scenarioB_deliverTime :
  Message.deliverTime (sent_message scenario_net "A" "B" "hi" 0 false) = 1.
Proof.
  unfold sent_message, next_latency, sampleLatency, Rng.uniform_real; simpl.
  unfold scenario_seed. lra.
Qed.

(** Scenario B, with the call of [step] made late, at time 5: the mailbox
    of "B" holds exactly one record, payload "hi", received at 1, latency 1. *)
Example scenarioB_late_step :
  nodes_ (step (sendMessage scenario_net "A" "B" "hi" 0) 5) !! 1%nat =
    Some (Node.mk "B" [Node.mkReceived 1 "A" "hi" 1 1]).
Proof.
  rewrite step_nodes, scenarioB_queue.
  rewrite (filter_cons_True (due 5))
    by (unfold due; rewrite scenarioB_deliverTime; lra).
  destruct (sendMessage_frame scenario_net "A" "B" "hi" 0) as (Hn & Hi & _).
  rewrite Hn. unfold mail_for.
  rewrite filter_cons_True by (unfold addressed_to, getNode; rewrite Hi; reflexivity).
  assert (Hr : received_of (sent_message scenario_net "A" "B" "hi" 0 false) =
               Node.mkReceived 1 "A" "hi" 1 1).
  { unfold received_of. rewrite scenarioB_deliverTime.
    unfold sent_message at 1 2 3 4. cbn [Message.id Message.from Message.cipherText
                                         Message.sendTime].
    rewrite xorCipher_involutive. f_equal. lra. }
  cbn [map filter list_filter]. rewrite Hr. reflexivity.
Qed.

Lemma receipt_carries_scheduled_time_witness :
  same_delivery (step (sendMessage scenario_net "A" "B" "hi" 0) 1)
    (step (sendMessage scenario_net "A" "B" "hi" 0) 5).
Proof.
  destruct receipt_carries_scheduled_time as (_ & _ & _ & Hlate).
  apply Hlate. intros m Hm. rewrite scenarioB_queue in Hm.
  apply list_elem_of_singleton in Hm. subst m.
  unfold due. rewrite scenarioB_deliverTime. split; intros _; lra.
Defined.

End ScenarioB.

(** ** The payload that reaches the mailbox *)

Section PayloadRoundTrip.

Import Network.

Lemma sendMessage_builds (net : t) (from to payload : string) (now : R) :
  exists dropped : bool,
    (if dropped
     then droppedMessages_ (sendMessage net from to payload now) =
            droppedMessages_ net ++ [sent_message net from to payload now true]
          /\ inTransit_ (sendMessage net from to payload now) = inTransit_ net
     else inTransit_ (sendMessage net from to payload now) =
            inTransit_ net ++ [sent_message net from to payload now false]
          /\ droppedMessages_ (sendMessage net from to payload now) =
               droppedMessages_ net).
Proof.
  destruct (Rlt_dec (next_uniform01 net) (dropProb_ net)) as [Hd|Hk].
  - exists true. destruct (sendMessage_dropped net from to payload now Hd) as (? & ? & _).
    split; assumption.
  - exists false. destruct (sendMessage_kept net from to payload now Hk) as (? & ? & _).
    split; assumption.
Qed.

Lemma step_after_send (net : t) (from to payload : string) (now later : R)
    (i : nat) (n : Node.t) :
  ~ next_uniform01 net < dropProb_ net ->
  getNode net to = Some i -> nodes_ net !! i = Some n ->
  now + next_latency net <= later ->
  exists earlier : list Node.ReceivedMessage,
    nodes_ (step (sendMessage net from to payload now) later) !! i =
      Some (Node.mk (Node.name_ n)
              (Node.inbox_ n ++ earlier ++
                 [received_of (sent_message net from to payload now false)])).
Proof.
  intros Hk Hdest Hn Hdue.
  destruct (sendMessage_kept net from to payload now Hk) as (Hq & _).
  destruct (sendMessage_frame net from to payload now) as (Hnodes & Hidx & _).
  rewrite step_nodes, Hq, Hnodes, Hn, filter_app.
  rewrite (filter_cons_True (due later)) by exact Hdue.
  unfold mail_for. rewrite filter_app.
  rewrite filter_cons_True by (unfold addressed_to, getNode; rewrite Hidx; exact Hdest).
  rewrite map_app. eexists. reflexivity.
Qed.

(** C5.  The obfuscation is an involution, for every text and every key;
    the message that [sendMessage] builds carries the plaintext and its
    obfuscated form; whenever that message is delivered to a registered
    node the record appended to the mailbox holds the plaintext given to
    [sendMessage]; and a message that was not dropped, sent to a
    registered node, is the last record of that node's mailbox after a
    [step] at or after its delivery time, with that plaintext. *)
Theorem obfuscation_round_trip :
  (forall text key : string, xorCipher (xorCipher text key) key = text)
  /\ (forall (net : Network.t) (from to payload : string) (now : R),
        exists (m : Message.t) (dropped : bool),
          m = sent_message net from to payload now dropped
          /\ (if dropped
              then droppedMessages_ (sendMessage net from to payload now) =
                     droppedMessages_ net ++ [m]
              else inTransit_ (sendMessage net from to payload now) =
                     inTransit_ net ++ [m])
          /\ Message.payload m = payload
          /\ Message.cipherText m = xorCipher payload encryptionKey_
          /\ forall (net' : Network.t) (now' : R) (i : nat) (n : Node.t),
               getNode net' (Message.to m) = Some i -> nodes_ net' !! i = Some n ->
               exists r : Node.ReceivedMessage,
                 nodes_ (deliver net' m now') !! i =
                   Some (Node.mk (Node.name_ n) (Node.inbox_ n ++ [r]))
                 /\ Node.payload r = payload)
  /\ (forall (net : Network.t) (from to payload : string) (now later : R)
        (i : nat) (n : Node.t),
        ~ next_uniform01 net < dropProb_ net ->
        getNode net to = Some i -> nodes_ net !! i = Some n ->
        now + next_latency net <= later ->
        exists (n' : Node.t) (r : Node.ReceivedMessage),
          nodes_ (step (sendMessage net from to payload now) later) !! i = Some n'
          /\ last (Node.inbox_ n') = Some r
          /\ Node.id r = nextMessageId_ net
          /\ Node.payload r = payload).
Proof.
  split; [exact xorCipher_involutive|]. split.
  - intros net from to payload now.
    destruct (sendMessage_builds net from to payload now) as [dropped Hb].
    exists (sent_message net from to payload now dropped), dropped.
    split; [reflexivity|]. split.
    { destruct dropped; apply Hb. }
    split; [reflexivity|]. split; [reflexivity|].
    intros net' now' i n Hdest Hn.
    destruct (deliver_registered net' _ now' i n Hdest Hn) as (Hnode & _).
    eexists. split; [exact Hnode|].
    simpl. apply xorCipher_involutive.
  - intros net from to payload now later i n Hk Hdest Hn Hdue.
    destruct (step_after_send net from to payload now later i n Hk Hdest Hn Hdue)
      as [earlier Hnode].
    eexists _, _. split; [exact Hnode|]. simpl.
    rewrite !app_assoc, last_snoc. split; [reflexivity|].
    split; [reflexivity|]. simpl. apply xorCipher_involutive.
Qed.

Lemma obfuscation_round_trip_witness :
  exists (n' : Node.t) (r : Node.ReceivedMessage),
    nodes_ (step (sendMessage scenario_net "A" "B" "hi" 0) 1) !! 1%nat = Some n'
    /\ last (Node.inbox_ n') = Some r
    /\ Node.id r = 1%Z
    /\ Node.payload r = "hi"%string.
Proof.
  destruct obfuscation_round_trip as (_ & _ & Hsent).
  apply (Hsent scenario_net "A" "B" "hi" 0 1 1%nat (Node.mk "B" [])).
  - unfold next_uniform01; simpl. unfold scenario_seed. lra.
  - reflexivity.
  - reflexivity.
  - unfold next_latency, sampleLatency, Rng.uniform_real; simpl.
    unfold scenario_seed. lra.
Defined.

End PayloadRoundTrip.

(** ** The node registry *)

Section Registry.

Import Network.

Lemma addNode_index (net : t) (name : string) :
  nodeIndex_ (addNode net name) = <[name := List.length (nodes_ net)]> (nodeIndex_ net).
Proof.
  unfold addNode; simpl. rewrite length_app; simpl.
  replace (List.length (nodes_ net) + 1 - 1)%nat with (List.length (nodes_ net)) by lia.
  reflexivity.
Qed.

Lemma addNode_nodes (net : t) (name : string) :
  nodes_ (addNode net name) = nodes_ net ++ [Node.new name].
Proof. reflexivity. Qed.

Lemma index_ok_new (baseLatency jitter dropProbability : R) (seed : nat -> R) :
  index_ok (new baseLatency jitter dropProbability seed).
Proof. intros name i H. simpl in H. rewrite lookup_empty in H. discriminate. Qed.

Lemma index_ok_addNode (net : t) (name : string) :
  index_ok net -> index_ok (addNode net name).
Proof.
  intros Hok k j. rewrite addNode_index, addNode_nodes.
  destruct (decide (name = k)) as [->|Hne].
  - rewrite lookup_insert_eq. intros [= <-].
    exists (Node.new k). split; [|reflexivity].
    apply list_lookup_middle. reflexivity.
  - rewrite lookup_insert_ne by exact Hne. intros Hk.
    destruct (Hok k j Hk) as (n & Hn & Hname).
    exists n. split; [|exact Hname].
    apply lookup_app_l_Some. exact Hn.
Qed.




(** C9.  Registering a name that is already in the index, at [i]:
    the lookup of the name now gives the node appended by this call, at
    the end of [nodes_]; the node at [i] is still in [nodes_], with its
    name and its mailbox, and is still listed by the summary; and no
    lookup, of any name, gives [i] any more. *)
Theorem duplicate_registration_orphans (net : Network.t) (name : string) (i : nat) :
  index_ok net ->
  nodeIndex_ net !! name = Some i ->
  getNode (addNode net name) name = Some (List.length (nodes_ net))
  /\ nodes_ (addNode net name) !! List.length (nodes_ net) = Some (Node.new name)
  /\ (i < List.length (nodes_ net))%nat
  /\ (exists earlier : Node.t,
        nodes_ net !! i = Some earlier
        /\ Node.name_ earlier = name
        /\ nodes_ (addNode net name) !! i = Some earlier
        /\ forall finalTime : R,
             sum_inboxes (printSummary (addNode net name) finalTime) !! i =
               Some (name, Node.inbox_ earlier))
  /\ (forall (finalTime : R),
        sum_inboxes (printSummary (addNode net name) finalTime)
          !! List.length (nodes_ net) = Some (name, []))
  /\ (forall other : string, getNode (addNode net name) other <> Some i).
Proof.
  intros Hok Hreg.
  destruct (Hok name i Hreg) as (earlier & Hearlier & Hname).
  assert (Hlt : (i < List.length (nodes_ net))%nat)
    by (apply lookup_lt_Some in Hearlier; exact Hearlier).
  assert (Hkept : nodes_ (addNode net name) !! i = Some earlier)
    by (rewrite addNode_nodes; apply lookup_app_l_Some; exact Hearlier).
  assert (Hlast : nodes_ (addNode net name) !! List.length (nodes_ net) =
                    Some (Node.new name))
    by (rewrite addNode_nodes; apply list_lookup_middle; reflexivity).
  split; [unfold getNode; rewrite addNode_index; apply lookup_insert_eq|].
  split; [exact Hlast|]. split; [exact Hlt|]. split.
  { exists earlier. repeat split; try assumption.
    intros finalTime. unfold printSummary. simpl sum_inboxes.
    rewrite list_lookup_fmap.
    change (nodes_ net ++ [Node.new name]) with (nodes_ (addNode net name)).
    rewrite Hkept. simpl. rewrite Hname. reflexivity. }
  split.
  { intros finalTime. unfold printSummary. simpl sum_inboxes.
    rewrite list_lookup_fmap.
    change (nodes_ net ++ [Node.new name]) with (nodes_ (addNode net name)).
    rewrite Hlast. reflexivity. }
  intros other. unfold getNode. rewrite addNode_index.
  destruct (decide (name = other)) as [->|Hne].
  - rewrite lookup_insert_eq. intros [= Heq]. lia.
  - rewrite lookup_insert_ne by exact Hne. intros Hother.
    destruct (Hok other i Hother) as (n & Hn & Hn_name).
    rewrite Hearlier in Hn. injection Hn as <-. congruence.
Qed.

Lemma duplicate_registration_orphans_witness :
  getNode (addNode scenario_net "A") "A" = Some 2%nat
  /\ nodes_ (addNode scenario_net "A") !! 0%nat = Some (Node.new "A")
  /\ forall other : string, getNode (addNode scenario_net "A") other <> Some 0%nat.
Proof.
  destruct (duplicate_registration_orphans scenario_net "A" 0) as (H1 & _ & _ & H4 & _ & H6).
  - unfold scenario_net. apply index_ok_addNode, index_ok_addNode, index_ok_new.
  - reflexivity.
  - split; [exact H1|]. split; [|exact H6].
    destruct H4 as (earlier & Hearlier & _ & Hkept & _).
    rewrite Hkept, <- Hearlier. reflexivity.
Defined.

End Registry.

(** ** The ledger of sent messages *)

Section Ledger.

Import Network.

Lemma failures_snoc (cout : list ConsoleLine) (l : ConsoleLine) :
  failures (cout ++ [l]) = (failures cout + if is_failure l then 1 else 0)%nat.
Proof.
  unfold failures. rewrite List.filter_app, length_app. simpl.
  destruct (is_failure l); reflexivity.
Qed.

Lemma deliver_failures (net : t) (m : Message.t) (now : R) :
  (failures (cout_ (deliver net m now)) + List.length (filter (registered net) [m])
   = failures (cout_ net) + 1)%nat.
Proof.
  unfold deliver, registered.
  destruct (getNode net (Message.to m)) as [dest|] eqn:Hdest; simpl cout_.
  - rewrite filter_cons_True by (rewrite Hdest; eauto).
    rewrite failures_snoc. simpl. lia.
  - rewrite filter_cons_False by (rewrite Hdest; intros [? ?]; discriminate).
    rewrite failures_snoc. simpl. lia.
Qed.

Lemma deliver_all_failures (net : t) (msgs : list Message.t) (now : R) :
  (failures (cout_ (deliver_all net msgs now))
   + List.length (filter (registered net) msgs)
   = failures (cout_ net) + List.length msgs)%nat.
Proof.
  revert net. induction msgs as [|m msgs IH]; intros net.
  - simpl. lia.
  - rewrite deliver_all_cons.
    specialize (IH (deliver net m now)). rewrite registered_deliver in IH.
    pose proof (deliver_failures net m now) as Hm.
    change (m :: msgs) with ([m] ++ msgs) at 2.
    rewrite (filter_app (registered net) [m] msgs), length_app.
    simpl List.length at 3. lia.
Qed.

Lemma due_travelling_length (now : R) (msgs : list Message.t) :
  (List.length (filter (due now) msgs) + List.length (filter (travelling now) msgs)
   = List.length msgs)%nat.
Proof.
  induction msgs as [|m msgs IH]; [reflexivity|].
  destruct (Rle_dec (Message.deliverTime m) now) as [Hdue|Hnot].
  - rewrite (filter_cons_True (due now)) by exact Hdue.
    rewrite (filter_cons_False (travelling now)) by (unfold travelling; lra).
    simpl. lia.
  - rewrite (filter_cons_False (due now)) by exact Hnot.
    rewrite (filter_cons_True (travelling now)) by (unfold travelling; lra).
    simpl. lia.
Qed.

Lemma accounted_new (baseLatency jitter dropProbability : R) (seed : nat -> R) :
  accounted (new baseLatency jitter dropProbability seed) = 0%Z.
Proof. reflexivity. Qed.

Lemma accounted_addNode (net : t) (name : string) :
  accounted (addNode net name) = accounted net.
Proof. reflexivity. Qed.

Lemma accounted_sendMessage (net : t) (from to payload : string) (now : R) :
  accounted (sendMessage net from to payload now) = (accounted net + 1)%Z.
Proof.
  unfold accounted.
  destruct (sendMessage_frame net from to payload now) as (_ & _ & Hc & _).
  rewrite Hc.
  destruct (Rlt_dec (next_uniform01 net) (dropProb_ net)) as [Hd|Hk].
  - destruct (sendMessage_dropped net from to payload now Hd) as (-> & -> & ->).
    rewrite failures_snoc, length_app. simpl. lia.
  - destruct (sendMessage_kept net from to payload now Hk) as (-> & -> & ->).
    rewrite failures_snoc, length_app. simpl. lia.
Qed.

Lemma step_failures (net : t) (now : R) :
  (failures (cout_ (step net now))
   + List.length (filter (registered net) (filter (due now) (inTransit_ net)))
   = failures (cout_ net) + List.length (filter (due now) (inTransit_ net)))%nat.
Proof. rewrite step_spec. simpl cout_. apply deliver_all_failures. Qed.

Lemma accounted_step (net : t) (now : R) : accounted (step net now) = accounted net.
Proof.
  unfold accounted.
  pose proof (step_failures net now) as Hf.
  pose proof (due_travelling_length now (inTransit_ net)) as Hp.
  rewrite step_inTransit.
  rewrite step_spec. simpl deliveredCount_. simpl droppedMessages_. simpl cout_.
  rewrite step_spec in Hf. simpl cout_ in Hf.
  rewrite deliver_all_count, deliver_all_dropped. lia.
Qed.

Lemma accounted_run (calls : list Call) (net : t) :
  accounted (run net calls) = (accounted net + Z.of_nat (sends calls))%Z.
Proof.
  revert net. induction calls as [|c calls IH]; intros net.
  - unfold sends. simpl. lia.
  - simpl. rewrite IH. unfold sends. destruct c; simpl.
    + rewrite accounted_addNode. reflexivity.
    + rewrite accounted_sendMessage. lia.
    + rewrite accounted_step. reflexivity.
Qed.

(** C4.  From a new network, after any sequence of [addNode],
    [sendMessage] and [step] calls, a [step] at a time [now] not earlier
    than the [deliverTime] of any message still queued (in particular, of
    any message ever sent) that leaves no [DELIVERY FAILED] line on the
    console ends with delivered count plus dropped count equal to the
    number of [sendMessage] calls made. *)
Theorem delivered_plus_dropped_is_sent
    (baseLatency jitter dropProbability : R) (seed : nat -> R)
    (calls : list Call) (now : R) :
  (forall m : Message.t,
      m ∈ inTransit_ (run (new baseLatency jitter dropProbability seed) calls) ->
      Message.deliverTime m <= now) ->
  failures
    (cout_ (step (run (new baseLatency jitter dropProbability seed) calls) now)) = 0%nat ->
  (deliveredCount_
     (step (run (new baseLatency jitter dropProbability seed) calls) now)
   + Z.of_nat (List.length
       (droppedMessages_
          (step (run (new baseLatency jitter dropProbability seed) calls) now))))%Z
  = Z.of_nat (sends calls).
Proof.
  intros Hdue Hnofail.
  set (net := run (new baseLatency jitter dropProbability seed) calls) in *.
  assert (Hempty : inTransit_ (step net now) = []).
  { rewrite step_inTransit.
    destruct (filter (travelling now) (inTransit_ net)) as [|m rest] eqn:Hf;
      [reflexivity|].
    assert (Hm : m ∈ filter (travelling now) (inTransit_ net))
      by (rewrite Hf; left).
    apply list_elem_of_filter in Hm as [Htr Hm].
    apply Hdue in Hm. unfold travelling in Htr. lra. }
  pose proof (accounted_step net now) as Hstep.
  unfold net in Hstep at 2. rewrite accounted_run, accounted_new in Hstep.
  unfold accounted in Hstep. rewrite Hempty, Hnofail in Hstep.
  simpl in Hstep. lia.
Qed.

Lemma delivered_plus_dropped_is_sent_witness :
  (deliveredCount_ (step (run (new 1 0 0 scenario_seed) scenarioB_calls) 1)
   + Z.of_nat (List.length
       (droppedMessages_ (step (run (new 1 0 0 scenario_seed) scenarioB_calls) 1))))%Z
  = 1%Z.
Proof.
  apply (delivered_plus_dropped_is_sent 1 0 0 scenario_seed scenarioB_calls 1).
  - change (run (new 1 0 0 scenario_seed) scenarioB_calls)
      with (sendMessage scenario_net "A" "B" "hi" 0).
    rewrite scenarioB_queue. intros m Hm.
    apply list_elem_of_singleton in Hm. subst m.
    rewrite scenarioB_deliverTime. lra.
  - change (run (new 1 0 0 scenario_seed) scenarioB_calls)
      with (sendMessage scenario_net "A" "B" "hi" 0).
    pose proof (step_failures (sendMessage scenario_net "A" "B" "hi" 0) 1) as Hf.
    rewrite scenarioB_queue in Hf.
    rewrite (filter_cons_True (due 1)) in Hf
      by (unfold due; rewrite scenarioB_deliverTime; lra).
    rewrite filter_cons_True in Hf.
    + destruct (sendMessage_kept scenario_net "A" "B" "hi" 0) as (_ & _ & Hcout).
      { unfold next_uniform01; simpl. unfold scenario_seed. lra. }
      rewrite Hcout in Hf. simpl in Hf. lia.
    + destruct (sendMessage_frame scenario_net "A" "B" "hi" 0) as (_ & Hi & _).
      unfold registered, getNode. rewrite Hi. eexists. reflexivity.
Defined.

End Ledger.

(** ** The orchestrator's step *)

Section Orchestrator.

Import Network.

Variable fixed2 : R -> string.

Lemma sendMessage_log (net : t) (from to payload : string) (now : R) :
  exists row : LogRow,
    logFile_ (sendMessage net from to payload now) = logFile_ net ++ [row]
    /\ (row_event row = "send"%string \/ row_event row = "drop_scheduled"%string)
    /\ row_time row = now /\ row_from row = from /\ row_to row = to
    /\ row_payload row = payload.
Proof.
  unfold sendMessage.
  destruct (Rng.uniform_real 0 1 (rng_ net)) as [u g1].
  destruct (Rlt_dec u (dropProb_ net));
    destruct (sampleLatency net g1) as [lat g2]; simpl;
    eexists; (split; [reflexivity|]); simpl; auto 10.
Qed.

Lemma report_all_cons (comms : t) (d : Drone.t) (drones : list Drone.t) (now : R) :
  report_all fixed2 comms (d :: drones) now =
    report_all fixed2 (Simulator.sendDroneStatus fixed2 comms d now) drones now.
Proof. reflexivity. Qed.

Lemma report_all_log (drones : list Drone.t) (comms : t) (now : R) :
  exists rows : list LogRow,
    logFile_ (report_all fixed2 comms drones now) = logFile_ comms ++ rows
    /\ Forall2 (telemetry_row fixed2 now) drones rows.
Proof.
  revert comms. induction drones as [|d drones IH]; intros comms.
  - exists []. simpl. rewrite app_nil_r. split; [reflexivity|constructor].
  - rewrite report_all_cons.
    destruct (IH (Simulator.sendDroneStatus fixed2 comms d now)) as (rows & Hlog & Hrows).
    destruct (sendMessage_log comms (Simulator.droneNodeName (Drone.mId d)) "HQ"
                (Simulator.statusPayload fixed2 d) now)
      as (row & Hrow & Hev & Ht & Hfrom & Hto & Hpay).
    exists (row :: rows). split.
    + rewrite Hlog. unfold Simulator.sendDroneStatus. rewrite Hrow.
      rewrite <- app_assoc. reflexivity.
    + constructor; [|exact Hrows]. unfold telemetry_row. auto.
Qed.

Lemma report_all_nextMessageId (drones : list Drone.t) (comms : t) (now : R) :
  nextMessageId_ (report_all fixed2 comms drones now) =
    (nextMessageId_ comms + Z.of_nat (List.length drones))%Z.
Proof.
  revert comms. induction drones as [|d drones IH]; intros comms.
  - simpl. lia.
  - rewrite report_all_cons, IH. unfold Simulator.sendDroneStatus.
    destruct (sendMessage_frame comms (Simulator.droneNodeName (Drone.mId d)) "HQ"
                (Simulator.statusPayload fixed2 d) now) as (_ & _ & _ & _ & Hid & _).
    rewrite Hid. simpl List.length. lia.
Qed.

Lemma deliver_log (net : t) (m : Message.t) (now : R) :
  exists rows : list LogRow,
    logFile_ (deliver net m now) = logFile_ net ++ rows
    /\ Forall (deliver_row now) rows.
Proof.
  unfold deliver. destruct (getNode net (Message.to m)) as [dest|]; simpl.
  - eexists [_]. split; [reflexivity|].
    constructor; [split; reflexivity|constructor].
  - exists []. rewrite app_nil_r. split; [reflexivity|constructor].
Qed.

Lemma deliver_all_log (msgs : list Message.t) (net : t) (now : R) :
  exists rows : list LogRow,
    logFile_ (deliver_all net msgs now) = logFile_ net ++ rows
    /\ Forall (deliver_row now) rows.
Proof.
  revert net. induction msgs as [|m msgs IH]; intros net.
  - exists []. simpl. rewrite app_nil_r. split; [reflexivity|constructor].
  - rewrite deliver_all_cons.
    destruct (IH (deliver net m now)) as (rows & Hlog & Hrows).
    destruct (deliver_log net m now) as (rows1 & Hlog1 & Hrows1).
    exists (rows1 ++ rows). split.
    + rewrite Hlog, Hlog1, app_assoc. reflexivity.
    + apply Forall_app. split; assumption.
Qed.

Lemma step_log (net : t) (now : R) :
  exists rows : list LogRow,
    logFile_ (step net now) = logFile_ net ++ rows /\ Forall (deliver_row now) rows.
Proof. rewrite step_spec. simpl logFile_. apply deliver_all_log. Qed.

Lemma step_nextMessageId (net : t) (now : R) :
  nextMessageId_ (step net now) = nextMessageId_ net.
Proof. rewrite step_spec. simpl. apply deliver_all_nextMessageId. Qed.

End Orchestrator.

Section OrchestratorClaims.

Import Network.

Variable fixed2 : R -> string.

(** C2.  One call [Simulator::step sim dt], with [now = mSimTime + dt]:
    the clock becomes [now] and every drone is updated with [dt].  When
    [now >= mNextReportTime], the network is first given one telemetry
    message per drone, in order, built from the updated drone, sent from
    the drone's node to "HQ" at time [now], and only then stepped at [now];
    the log file gains the telemetry rows followed by the delivery rows,
    and [mNextReportTime] grows by [mReportInterval], once, whatever the
    size of [dt].  When [now < mNextReportTime] nothing is sent, the
    network is stepped at [now] and [mNextReportTime] is unchanged. *)
Theorem step_updates_reports_then_delivers (sim : Simulator.t) (dt : R) :
  let now := Simulator.mSimTime sim + dt in
  let drones :=
    map (fun d => Drone.update d dt (Simulator.mWorld sim)) (Simulator.mDrones sim) in
  Simulator.mSimTime (Simulator.step fixed2 sim dt) = now
  /\ Simulator.mDrones (Simulator.step fixed2 sim dt) = drones
  /\ (now >= Simulator.mNextReportTime sim ->
      Simulator.mNextReportTime (Simulator.step fixed2 sim dt) =
        Simulator.mNextReportTime sim + Simulator.mReportInterval sim
      /\ Simulator.mComms (Simulator.step fixed2 sim dt) =
           Network.step (report_all fixed2 (Simulator.mComms sim) drones now) now
      /\ nextMessageId_ (Simulator.mComms (Simulator.step fixed2 sim dt)) =
           (nextMessageId_ (Simulator.mComms sim)
            + Z.of_nat (List.length (Simulator.mDrones sim)))%Z
      /\ exists sent delivered : list LogRow,
           logFile_ (Simulator.mComms (Simulator.step fixed2 sim dt)) =
             logFile_ (Simulator.mComms sim) ++ sent ++ delivered
           /\ Forall2 (telemetry_row fixed2 now) drones sent
           /\ Forall (deliver_row now) delivered)
  /\ (now < Simulator.mNextReportTime sim ->
      Simulator.mNextReportTime (Simulator.step fixed2 sim dt) =
        Simulator.mNextReportTime sim
      /\ Simulator.mComms (Simulator.step fixed2 sim dt) =
           Network.step (Simulator.mComms sim) now
      /\ nextMessageId_ (Simulator.mComms (Simulator.step fixed2 sim dt)) =
           nextMessageId_ (Simulator.mComms sim)
      /\ exists delivered : list LogRow,
           logFile_ (Simulator.mComms (Simulator.step fixed2 sim dt)) =
             logFile_ (Simulator.mComms sim) ++ delivered
           /\ Forall (deliver_row now) delivered).
Proof.
  intros now drones.
  split; [unfold Simulator.step; destruct (Rge_dec _ _); reflexivity|].
  split; [unfold Simulator.step; destruct (Rge_dec _ _); reflexivity|].
  split.
  - intros Hreport.
    assert (Hcomms : Simulator.mComms (Simulator.step fixed2 sim dt) =
              Network.step (report_all fixed2 (Simulator.mComms sim) drones now) now).
    { unfold Simulator.step. fold now.
      destruct (Rge_dec now (Simulator.mNextReportTime sim)); [reflexivity|contradiction]. }
    split.
    { unfold Simulator.step. fold now.
      destruct (Rge_dec now (Simulator.mNextReportTime sim)); [reflexivity|contradiction]. }
    split; [exact Hcomms|]. rewrite Hcomms. split.
    + rewrite step_nextMessageId, report_all_nextMessageId.
      unfold drones. rewrite length_map. reflexivity.
    + destruct (step_log (report_all fixed2 (Simulator.mComms sim) drones now) now)
        as (delivered & Hlog & Hdelivered).
      destruct (report_all_log fixed2 drones (Simulator.mComms sim) now)
        as (sent & Hsent & Hrows).
      exists sent, delivered. split; [|split; assumption].
      rewrite Hlog, Hsent, app_assoc. reflexivity.
  - intros Hquiet.
    assert (Hcomms : Simulator.mComms (Simulator.step fixed2 sim dt) =
              Network.step (Simulator.mComms sim) now).
    { unfold Simulator.step. fold now.
      destruct (Rge_dec now (Simulator.mNextReportTime sim)); [lra|reflexivity]. }
    split.
    { unfold Simulator.step. fold now.
      destruct (Rge_dec now (Simulator.mNextReportTime sim)); [lra|reflexivity]. }
    split; [exact Hcomms|]. rewrite Hcomms. split.
    + apply step_nextMessageId.
    + apply step_log.
Qed.

(** A step of two seconds on a new simulator crosses four report times
    and moves [mNextReportTime] from 0.5 to 1 only. *)
Example large_step_reports_once (world : World.t) (seed : nat -> R) :
  Simulator.mSimTime (Simulator.step fixed2 (Simulator.new world seed) 2) = 2
  /\ Simulator.mNextReportTime (Simulator.step fixed2 (Simulator.new world seed) 2) = 1.
Proof.
  unfold Simulator.step; simpl.
  destruct (Rge_dec (0 + 2) 0.5) as [_|Hc]; [|lra].
  simpl. split; lra.
Qed.

End OrchestratorClaims.

(** * Further properties of the code *)

(** ** Drone::update: the boundary tests and the floor *)

Section FreeMotion.

Import Drone.

Lemma drone_eta (d : Drone.t) :
  with_motion d (mPosition d) (mVelocity d) = d.
Proof. destruct d; reflexivity. Qed.

Lemma boundary_inside (d : Drone.t) (world : World.t) :
  0 <= Vector2.x (mPosition d) <= World.width world ->
  0 <= Vector2.y (mPosition d) <= World.height world ->
  boundary d world = d.
Proof.
  intros Hx Hy. unfold boundary.
  destruct (Rlt_dec (Vector2.x (mPosition d)) 0); [lra|].
  destruct (Rlt_dec (Vector2.y (mPosition d)) 0); [lra|].
  destruct (Rgt_dec (Vector2.x (mPosition d)) (World.width world)); [lra|].
  destruct (Rgt_dec (Vector2.y (mPosition d)) (World.height world)); [lra|].
  apply drone_eta.
Qed.

(** X6.  In a world with [width >= 0] and [height >= 0] the boundary
    tests of [Drone::update] change nothing on a drone that is inside the
    world, velocity included, and applying them a second time changes
    nothing more; so [Drone::update] is the integration alone whenever
    the integrated position is inside the world. *)
Theorem boundary_is_a_projection (d : Drone.t) (dt : R) (world : World.t) :
  0 <= World.width world -> 0 <= World.height world ->
  (0 <= Vector2.x (mPosition d) <= World.width world ->
   0 <= Vector2.y (mPosition d) <= World.height world ->
   boundary d world = d)
  /\ boundary (boundary d world) world = boundary d world
  /\ (0 <= Vector2.x (mPosition (integrate d dt world)) <= World.width world ->
      0 <= Vector2.y (mPosition (integrate d dt world)) <= World.height world ->
      update d dt world = integrate d dt world)
  /\ boundary (update d dt world) world = update d dt world.
Proof.
  intros Hw Hh.
  assert (Hidem : forall d0 : Drone.t,
             boundary (boundary d0 world) world = boundary d0 world).
  { intros d0. apply boundary_inside.
    - rewrite boundary_position_x by exact Hw. apply clamp_axis_range, Hw.
    - rewrite boundary_position_y by exact Hh. apply clamp_axis_range, Hh. }
  split; [apply boundary_inside|]. split; [apply Hidem|].
  split; [intros Hx Hy; unfold update; apply boundary_inside; assumption|].
  unfold update. apply Hidem.
Qed.

Lemma boundary_is_a_projection_witness :
  boundary (update resting_drone 1 scenarioA_world) scenarioA_world =
    update resting_drone 1 scenarioA_world.
Proof.
  apply (boundary_is_a_projection resting_drone 1 scenarioA_world); simpl; lra.
Defined.

Lemma integrate_sinks (d : Drone.t) (dt : R) (world : World.t) :
  0 < mass (mParameters d) -> 0 < dt ->
  Vector2.y (mThrust d)
    + Vector2.y (World.gravity world) * mass (mParameters d) < 0 ->
  Vector2.y (mVelocity d) <= 0 ->
  Vector2.y (mPosition d) <= 0 ->
  Vector2.y (mPosition (integrate d dt world)) < 0.
Proof.
  intros Hmass Hdt Hdown Hvy Hy.
  assert (Hinv : 0 < 1 / mass (mParameters d)) by (apply Rdiv_lt_0_compat; lra).
  set (k := 1 / mass (mParameters d)) in *.
  set (f := Vector2.y (mThrust d)
            + Vector2.y (World.gravity world) * mass (mParameters d)) in *.
  assert (Hacc : f * k * dt < 0).
  { assert (f * k < 0) by nra. nra. }
  unfold integrate. simpl mPosition.
  destruct (Rgt_dec (maxSpeed (mParameters d)) 0) as [Hlimit|_].
  - match goal with
    | |- context [Rgt_dec ?speed (maxSpeed (mParameters d))] =>
        destruct (Rgt_dec speed (maxSpeed (mParameters d))) as [Hfast|_];
          [assert (Hratio : 0 < maxSpeed (mParameters d) / speed)
             by (apply Rdiv_lt_0_compat; lra);
           set (ratio := maxSpeed (mParameters d) / speed) in *|]
    end; simpl; fold f k.
    + assert (Hv1 : Vector2.y (mVelocity d) + f * k * dt < 0) by lra.
      assert ((Vector2.y (mVelocity d) + f * k * dt) * ratio < 0) by nra.
      nra.
    + nra.
  - simpl; fold f k. nra.
Qed.

(** X7.  A drone on the floor ([y = 0], not rising) whose thrust does not
    overcome its weight stays on the floor: after [Drone::update] with
    [dt > 0] its height and its vertical velocity are exactly 0. *)
Theorem update_rests_on_floor (d : Drone.t) (dt : R) (world : World.t) :
  0 < mass (mParameters d) -> 0 < dt -> 0 <= World.height world ->
  Vector2.y (mThrust d)
    + Vector2.y (World.gravity world) * mass (mParameters d) < 0 ->
  Vector2.y (mPosition d) = 0 ->
  Vector2.y (mVelocity d) <= 0 ->
  Vector2.y (mPosition (update d dt world)) = 0
  /\ Vector2.y (mVelocity (update d dt world)) = 0.
Proof.
  intros Hmass Hdt Hheight Hdown Hy Hvy.
  assert (Hsink : Vector2.y (mPosition (integrate d dt world)) < 0)
    by (apply integrate_sinks; lra).
  unfold update.
  rewrite boundary_position_y, boundary_velocity_y by exact Hheight.
  unfold clamp_axis.
  destruct (Rlt_dec (Vector2.y (mPosition (integrate d dt world))) 0); [|lra].
  split; reflexivity.
Qed.

Lemma update_rests_on_floor_witness :
  Vector2.y (mPosition (update resting_drone 1 scenarioA_world)) = 0
  /\ Vector2.y (mVelocity (update resting_drone 1 scenarioA_world)) = 0.
Proof.
  apply (update_rests_on_floor resting_drone 1 scenarioA_world); simpl; lra.
Defined.

End FreeMotion.

(** ** Network::sendMessage: classification, identifiers, delivery window *)

Section SendWindow.

Import Network.

Lemma same_setup_refl (net : t) : same_setup net net.
Proof. repeat split. Qed.

Lemma same_setup_trans (a b c : t) : same_setup a b -> same_setup b c -> same_setup a c.
Proof.
  intros (H1 & H2 & H3 & H4) (G1 & G2 & G3 & G4).
  repeat split; congruence.
Qed.

Lemma sendMessage_setup (net : t) (from to payload : string) (now : R) :
  same_setup (sendMessage net from to payload now) net.
Proof.
  unfold same_setup, sendMessage, sampleLatency, Rng.uniform_real, Rng.canonical.
  simpl. destruct (Rlt_dec _ _); simpl; repeat split.
Qed.

Lemma deliver_setup (net : t) (m : Message.t) (now : R) :
  same_setup (deliver net m now) net /\ rng_ (deliver net m now) = rng_ net.
Proof.
  unfold same_setup, deliver. destruct (getNode net _); simpl; repeat split.
Qed.

Lemma deliver_all_setup (msgs : list Message.t) (net : t) (now : R) :
  same_setup (deliver_all net msgs now) net.
Proof.
  revert net. induction msgs as [|m msgs IH]; intros net; [apply same_setup_refl|].
  rewrite deliver_all_cons.
  apply same_setup_trans with (deliver net m now); [apply IH|apply deliver_setup].
Qed.

Lemma step_setup (net : t) (now : R) : same_setup (step net now) net.
Proof.
  rewrite step_spec.
  destruct (deliver_all_setup (filter (due now) (inTransit_ net)) net now)
    as (H1 & H2 & H3 & H4).
  repeat split; assumption.
Qed.

Lemma call_setup (net : t) (c : Call) : same_setup (call net c) net.
Proof.
  destruct c; simpl.
  - repeat split.
  - apply sendMessage_setup.
  - apply step_setup.
Qed.


Lemma draws_in_range_setup (a b : t) :
  same_setup a b -> draws_in_range (rng_ b) -> draws_in_range (rng_ a).
Proof. intros (_ & _ & _ & Hs) Hr k. rewrite Hs. apply Hr. Qed.

Lemma next_uniform01_range (net : t) :
  draws_in_range (rng_ net) -> 0 <= next_uniform01 net < 1.
Proof.
  intros Hr. unfold next_uniform01, Rng.uniform_real, Rng.canonical; simpl.
  specialize (Hr (Rng.drawn (rng_ net))). lra.
Qed.

Lemma next_latency_range (net : t) :
  draws_in_range (rng_ net) -> 0 <= jitter_ net ->
  baseLatency_ net - jitter_ net <= next_latency net <= baseLatency_ net + jitter_ net.
Proof.
  intros Hr Hj. unfold next_latency, sampleLatency, Rng.uniform_real, Rng.canonical.
  simpl. specialize (Hr (S (Rng.drawn (rng_ net)))).
  set (r := Rng.source (rng_ net) (S (Rng.drawn (rng_ net)))) in *.
  split; nra.
Qed.

(** X8.  One call of [sendMessage] appends exactly one message, to the dropped
    set when the Bernoulli draw is below [dropProb_] and to the queue
    otherwise, and leaves the other set alone.  The message carries the
    next identifier, the send time, its classification in [dropped], and
    never the [delivered] flag.  When the generator's draws lie in [[0,1)]
    and [jitter_ >= 0], its delivery time lies within [jitter_] of
    [now + baseLatency_], whether it was dropped or not. *)
Theorem sendMessage_classifies_and_schedules
    (net : Network.t) (from to payload : string) (now : R) :
  draws_in_range (rng_ net) -> 0 <= jitter_ net ->
  exists (m : Message.t) (dropped : bool),
    m = sent_message net from to payload now dropped
    /\ (if dropped
        then droppedMessages_ (sendMessage net from to payload now) =
               droppedMessages_ net ++ [m]
             /\ inTransit_ (sendMessage net from to payload now) = inTransit_ net
        else inTransit_ (sendMessage net from to payload now) =
               inTransit_ net ++ [m]
             /\ droppedMessages_ (sendMessage net from to payload now) =
                  droppedMessages_ net)
    /\ (dropped = true <-> next_uniform01 net < dropProb_ net)
    /\ Message.id m = nextMessageId_ net
    /\ Message.sendTime m = now
    /\ Message.dropped m = dropped
    /\ Message.delivered m = false
    /\ now + (baseLatency_ net - jitter_ net) <= Message.deliverTime m
         <= now + (baseLatency_ net + jitter_ net).
Proof.
  intros Hr Hj. pose proof (next_latency_range net Hr Hj) as Hlat.
  destruct (Rlt_dec (next_uniform01 net) (dropProb_ net)) as [Hd|Hk].
  - exists (sent_message net from to payload now true), true.
    destruct (sendMessage_dropped net from to payload now Hd) as (Hq & Hdr & _).
    repeat split; try assumption; try reflexivity; simpl; lra.
  - exists (sent_message net from to payload now false), false.
    destruct (sendMessage_kept net from to payload now Hk) as (Hq & Hdr & _).
    repeat split; try assumption; try reflexivity; try discriminate;
      try contradiction; simpl; lra.
Qed.

Lemma sendMessage_classifies_and_schedules_witness :
  exists (m : Message.t) (dropped : bool),
    m = sent_message scenario_net "A" "B" "hi" 0 dropped
    /\ Message.id m = 1%Z
    /\ 0 + (1 - 0) <= Message.deliverTime m <= 0 + (1 + 0).
Proof.
  destruct (sendMessage_classifies_and_schedules scenario_net "A" "B" "hi" 0)
    as (m & dropped & Hm & _ & _ & Hid & _ & _ & _ & Hwin).
  - intros k. simpl. unfold scenario_seed. lra.
  - simpl. lra.
  - exists m, dropped. split; [exact Hm|]. split; [exact Hid|exact Hwin].
Defined.

(** X9.  A message that was not dropped is still queued after a [step] at any
    time before [now + baseLatency_ - jitter_]; in particular, when
    [jitter_ < baseLatency_], after a [step] at the very time of the
    send. *)
Theorem step_before_window_keeps_message
    (net : Network.t) (from to payload : string) (now later : R) :
  draws_in_range (rng_ net) -> 0 <= jitter_ net ->
  ~ next_uniform01 net < dropProb_ net ->
  later < now + (baseLatency_ net - jitter_ net) ->
  sent_message net from to payload now false
    ∈ inTransit_ (step (sendMessage net from to payload now) later).
Proof.
  intros Hr Hj Hk Hlater.
  pose proof (next_latency_range net Hr Hj) as Hlat.
  destruct (sendMessage_kept net from to payload now Hk) as (Hq & _).
  rewrite step_inTransit, Hq. apply list_elem_of_filter. split.
  - unfold travelling. simpl. lra.
  - apply elem_of_app. right. left.
Qed.

Lemma step_before_window_keeps_message_witness :
  sent_message scenario_net "A" "B" "hi" 0 false
    ∈ inTransit_ (step (sendMessage scenario_net "A" "B" "hi" 0) 0).
Proof.
  apply (step_before_window_keeps_message scenario_net "A" "B" "hi" 0 0).
  - intros k. simpl. unfold scenario_seed. lra.
  - simpl. lra.
  - unfold next_uniform01. simpl. unfold scenario_seed. lra.
  - simpl. lra.
Defined.

End SendWindow.

(** ** The drop decision at its extremes *)

Section DropExtremes.

Import Network.

Lemma call_never_drops (net : t) (c : Call) :
  draws_in_range (rng_ net) -> dropProb_ net <= 0 ->
  droppedMessages_ (call net c) = droppedMessages_ net.
Proof.
  intros Hr Hp. destruct c as [name|from to payload now|now]; simpl.
  - reflexivity.
  - pose proof (next_uniform01_range net Hr) as Hu.
    destruct (sendMessage_kept net from to payload now) as (_ & Hdr & _); [lra|].
    exact Hdr.
  - rewrite step_spec. simpl. apply deliver_all_dropped.
Qed.

Lemma run_never_drops (calls : list Call) (net : t) :
  draws_in_range (rng_ net) -> dropProb_ net <= 0 ->
  droppedMessages_ (run net calls) = droppedMessages_ net.
Proof.
  revert net. induction calls as [|c calls IH]; intros net Hr Hp; [reflexivity|].
  simpl. pose proof (call_setup net c) as Hs.
  rewrite IH.
  - apply call_never_drops; assumption.
  - apply (draws_in_range_setup _ net Hs Hr).
  - destruct Hs as (_ & _ & -> & _). exact Hp.
Qed.

(** Nothing queued, nothing delivered, no failure reported, every mailbox
    empty. *)
Lemma call_always_drops (net : t) (c : Call) :
  draws_in_range (rng_ net) -> 1 <= dropProb_ net ->
  inTransit_ net = [] /\ deliveredCount_ net = 0%Z
  /\ failures (cout_ net) = 0%nat
  /\ Forall (fun n => Node.inbox_ n = []) (nodes_ net) ->
  inTransit_ (call net c) = [] /\ deliveredCount_ (call net c) = 0%Z
  /\ failures (cout_ (call net c)) = 0%nat
  /\ Forall (fun n => Node.inbox_ n = []) (nodes_ (call net c)).
Proof.
  intros Hr Hp (Hq & Hc & Hf & Hn).
  destruct c as [name|from to payload now|now]; simpl.
  - repeat split; try assumption.
    apply Forall_app. split; [exact Hn|]. constructor; [reflexivity|constructor].
  - pose proof (next_uniform01_range net Hr) as Hu.
    destruct (sendMessage_dropped net from to payload now) as (Hq' & _ & Hcout); [lra|].
    destruct (sendMessage_frame net from to payload now) as (Hnodes & _ & Hcount & _).
    rewrite Hq', Hcount, Hnodes, Hcout, failures_snoc. simpl.
    repeat split; try assumption. lia.
  - rewrite step_spec, Hq. simpl. repeat split; assumption.
Qed.

Lemma run_always_drops (calls : list Call) (net : t) :
  draws_in_range (rng_ net) -> 1 <= dropProb_ net ->
  inTransit_ net = [] /\ deliveredCount_ net = 0%Z
  /\ failures (cout_ net) = 0%nat
  /\ Forall (fun n => Node.inbox_ n = []) (nodes_ net) ->
  inTransit_ (run net calls) = [] /\ deliveredCount_ (run net calls) = 0%Z
  /\ failures (cout_ (run net calls)) = 0%nat
  /\ Forall (fun n => Node.inbox_ n = []) (nodes_ (run net calls)).
Proof.
  revert net. induction calls as [|c calls IH]; intros net Hr Hp Hidle; [exact Hidle|].
  simpl. pose proof (call_setup net c) as Hs. apply IH.
  - apply (draws_in_range_setup _ net Hs Hr).
  - destruct Hs as (_ & _ & -> & _). exact Hp.
  - apply call_always_drops; assumption.
Qed.

(** X10.  From a new network whose generator draws in [[0,1)]: with
    [dropProbability <= 0] no message is ever put in the dropped set;
    with [dropProbability >= 1] every message sent is dropped, so the
    queue stays empty, nothing is ever delivered and every mailbox stays
    empty, whatever calls are made. *)
Theorem drop_probability_extremes
    (baseLatency jitter dropProbability : R) (seed : nat -> R) (calls : list Call) :
  (forall k : nat, 0 <= seed k < 1) ->
  (dropProbability <= 0 ->
   droppedMessages_ (run (new baseLatency jitter dropProbability seed) calls) = [])
  /\ (1 <= dropProbability ->
      inTransit_ (run (new baseLatency jitter dropProbability seed) calls) = []
      /\ deliveredCount_ (run (new baseLatency jitter dropProbability seed) calls) = 0%Z
      /\ Forall (fun n => Node.inbox_ n = [])
           (nodes_ (run (new baseLatency jitter dropProbability seed) calls))
      /\ List.length
           (droppedMessages_ (run (new baseLatency jitter dropProbability seed) calls))
         = sends calls).
Proof.
  intros Hseed. split.
  - intros Hp. rewrite run_never_drops; [reflexivity|exact Hseed|exact Hp].
  - intros Hp.
    destruct (run_always_drops calls (new baseLatency jitter dropProbability seed))
      as (Hq & Hc & Hf & Hn); [exact Hseed|exact Hp| |].
    { repeat split. constructor. }
    repeat split; try assumption.
    pose proof (accounted_run calls (new baseLatency jitter dropProbability seed)) as Hacc.
    rewrite accounted_new in Hacc. unfold accounted in Hacc.
    rewrite Hq, Hc, Hf in Hacc. simpl in Hacc. lia.
Qed.

Lemma drop_probability_extremes_witness :
  droppedMessages_ (run (new 1 0 0 scenario_seed) scenarioB_calls) = [].
Proof.
  apply (drop_probability_extremes 1 0 0 scenario_seed scenarioB_calls).
  - intros k. unfold scenario_seed. lra.
  - lra.
Defined.

End DropExtremes.

(** ** Message identifiers *)

Section Identifiers.

Import Network.

Lemma submseteq_keeps_NoDup (l k : list Z) : l ⊆+ k -> NoDup k -> NoDup l.
Proof.
  intros Hsub Hnd. destruct (submseteq_Permutation l k Hsub) as [rest Hk].
  rewrite Hk in Hnd. apply NoDup_app in Hnd. tauto.
Qed.

Lemma record_ids_alter (f : Node.t -> Node.t) (z : Z) (nodes : list Node.t) (i : nat) :
  (forall n, Node.id <$> Node.inbox_ (f n) = (Node.id <$> Node.inbox_ n) ++ [z]) ->
  record_ids (alter f i nodes) ⊆+ z :: record_ids nodes.
Proof.
  intros Hf. revert i. induction nodes as [|n rest IH]; intros i.
  - simpl. apply submseteq_cons. reflexivity.
  - destruct i as [|j].
    + change (alter f 0%nat (n :: rest)) with (f n :: rest).
      unfold record_ids. rewrite !bind_cons, Hf.
      apply Permutation_submseteq.
      rewrite <- app_assoc. simpl. symmetry. apply Permutation_middle.
    + change (alter f (S j) (n :: rest)) with (n :: alter f j rest).
      unfold record_ids. rewrite !bind_cons.
      etrans; [apply submseteq_skips_l, IH|].
      apply Permutation_submseteq. symmetry. apply Permutation_middle.
Qed.

Lemma deliver_record_ids (net : t) (m : Message.t) (now : R) :
  record_ids (nodes_ (deliver net m now)) ⊆+ Message.id m :: record_ids (nodes_ net).
Proof.
  unfold deliver. destruct (getNode net (Message.to m)) as [dest|]; simpl.
  - apply record_ids_alter. intros n. simpl. rewrite fmap_app. reflexivity.
  - apply submseteq_cons. reflexivity.
Qed.

Lemma deliver_all_record_ids (msgs : list Message.t) (net : t) (now : R) :
  record_ids (nodes_ (deliver_all net msgs now))
    ⊆+ (Message.id <$> msgs) ++ record_ids (nodes_ net).
Proof.
  revert net. induction msgs as [|m msgs IH]; intros net; [reflexivity|].
  rewrite deliver_all_cons. etrans; [apply IH|].
  etrans; [apply submseteq_skips_l, deliver_record_ids|].
  apply Permutation_submseteq. rewrite fmap_cons. simpl.
  symmetry. apply Permutation_middle.
Qed.

Lemma due_travelling_ids (now : R) (msgs : list Message.t) :
  (Message.id <$> filter (travelling now) msgs)
    ++ (Message.id <$> filter (due now) msgs) ≡ₚ Message.id <$> msgs.
Proof.
  induction msgs as [|m msgs IH]; [reflexivity|].
  destruct (Rle_dec (Message.deliverTime m) now) as [Hdue|Hnot].
  - rewrite (filter_cons_True (due now)) by exact Hdue.
    rewrite (filter_cons_False (travelling now)) by (unfold travelling; lra).
    rewrite !fmap_cons, <- IH. symmetry. apply Permutation_middle.
  - rewrite (filter_cons_False (due now)) by exact Hnot.
    rewrite (filter_cons_True (travelling now)) by (unfold travelling; lra).
    rewrite !fmap_cons, <- IH. reflexivity.
Qed.

Lemma step_all_ids (net : t) (now : R) : all_ids (step net now) ⊆+ all_ids net.
Proof.
  unfold all_ids. rewrite step_spec. simpl.
  rewrite deliver_all_dropped.
  rewrite <- (due_travelling_ids now (inTransit_ net)), <- app_assoc.
  apply submseteq_skips_l.
  etrans; [apply submseteq_skips_l, deliver_all_record_ids|].
  apply Permutation_submseteq.
  rewrite !app_assoc. apply Permutation_app_tail, Permutation_app_comm.
Qed.

Lemma sendMessage_all_ids (net : t) (from to payload : string) (now : R) :
  all_ids (sendMessage net from to payload now) ≡ₚ nextMessageId_ net :: all_ids net.
Proof.
  unfold all_ids.
  destruct (sendMessage_frame net from to payload now) as (Hn & _).
  rewrite Hn.
  destruct (sendMessage_builds net from to payload now) as [[|] [H1 H2]];
    rewrite H1, H2, fmap_app; simpl.
  - rewrite <- !app_assoc. simpl.
    rewrite <- Permutation_middle.
    rewrite (Permutation_middle (Message.id <$> inTransit_ net)). reflexivity.
  - rewrite <- !app_assoc. simpl. rewrite <- Permutation_middle. reflexivity.
Qed.

Lemma addNode_all_ids (net : t) (name : string) : all_ids (addNode net name) = all_ids net.
Proof.
  unfold all_ids, record_ids. simpl. rewrite bind_app. simpl.
  rewrite app_nil_r. reflexivity.
Qed.

Lemma call_ids_fresh (net : t) (c : Call) :
  (1 <= nextMessageId_ net)%Z
  /\ NoDup (all_ids net)
  /\ (forall z : Z, z ∈ all_ids net -> (1 <= z < nextMessageId_ net)%Z) ->
  (1 <= nextMessageId_ (call net c))%Z
  /\ NoDup (all_ids (call net c))
  /\ (forall z : Z, z ∈ all_ids (call net c) ->
        (1 <= z < nextMessageId_ (call net c))%Z).
Proof.
  intros (Hpos & Hnd & Hrange). destruct c as [name|from to payload now|now]; simpl.
  - rewrite addNode_all_ids. repeat split; try assumption; apply Hrange; assumption.
  - destruct (sendMessage_frame net from to payload now) as (_ & _ & _ & _ & Hid & _).
    rewrite Hid. split; [lia|]. split.
    + rewrite sendMessage_all_ids. apply NoDup_cons. split; [|exact Hnd].
      intros Hin. apply Hrange in Hin. lia.
    + intros z Hz. rewrite sendMessage_all_ids in Hz.
      apply elem_of_cons in Hz as [->|Hz]; [lia|].
      apply Hrange in Hz. lia.
  - rewrite step_nextMessageId. split; [exact Hpos|]. split.
    + apply (submseteq_keeps_NoDup _ _ (step_all_ids net now) Hnd).
    + intros z Hz. apply Hrange.
      apply (elem_of_submseteq _ _ _ Hz (step_all_ids net now)).
Qed.

Lemma run_ids_fresh (calls : list Call) (net : t) :
  (1 <= nextMessageId_ net)%Z
  /\ NoDup (all_ids net)
  /\ (forall z : Z, z ∈ all_ids net -> (1 <= z < nextMessageId_ net)%Z) ->
  (1 <= nextMessageId_ (run net calls))%Z
  /\ NoDup (all_ids (run net calls))
  /\ (forall z : Z, z ∈ all_ids (run net calls) ->
        (1 <= z < nextMessageId_ (run net calls))%Z).
Proof.
  revert net. induction calls as [|c calls IH]; intros net Hinv; [exact Hinv|].
  simpl. apply IH, call_ids_fresh, Hinv.
Qed.

Lemma run_nextMessageId (calls : list Call) (net : t) :
  nextMessageId_ (run net calls) = (nextMessageId_ net + Z.of_nat (sends calls))%Z.
Proof.
  revert net. induction calls as [|c calls IH]; intros net.
  - unfold sends. simpl. lia.
  - simpl. rewrite IH. unfold sends. destruct c as [name|from to payload now|now]; simpl.
    + lia.
    + destruct (sendMessage_frame net from to payload now) as (_ & _ & _ & _ & Hid & _).
      rewrite Hid. lia.
    + rewrite step_nextMessageId. lia.
Qed.

(** X11.  From a new network, after any calls: the next identifier is 1 plus
    the number of sends made, whatever was dropped; and the identifiers of
    the queued messages, of the dropped messages and of the records in
    all the mailboxes are pairwise distinct and lie between 1 and the
    number of sends.  So no message is delivered twice, and no dropped
    message is ever delivered. *)
Theorem identifiers_are_issued_once
    (baseLatency jitter dropProbability : R) (seed : nat -> R) (calls : list Call) :
  nextMessageId_ (run (new baseLatency jitter dropProbability seed) calls) =
    (1 + Z.of_nat (sends calls))%Z
  /\ NoDup (all_ids (run (new baseLatency jitter dropProbability seed) calls))
  /\ (forall z : Z,
        z ∈ all_ids (run (new baseLatency jitter dropProbability seed) calls) ->
        (1 <= z <= Z.of_nat (sends calls))%Z).
Proof.
  pose proof (run_nextMessageId calls (new baseLatency jitter dropProbability seed))
    as Hnext. simpl in Hnext.
  destruct (run_ids_fresh calls (new baseLatency jitter dropProbability seed))
    as (_ & Hnd & Hrange).
  { simpl. split; [lia|]. split; [constructor|].
    intros z Hz. unfold all_ids in Hz. simpl in Hz. inversion Hz. }
  split; [exact Hnext|]. split; [exact Hnd|].
  intros z Hz. apply Hrange in Hz. lia.
Qed.

(** In Scenario B the one record of the mailbox of "B" bears the only
    identifier issued. *)
Example scenarioB_ids :
  all_ids (step (sendMessage scenario_net "A" "B" "hi" 0) 5) = [1%Z].
Proof.
  unfold all_ids.
  rewrite step_inTransit, scenarioB_queue.
  rewrite (filter_cons_False (travelling 5))
    by (unfold travelling; rewrite scenarioB_deliverTime; lra).
  assert (Hdr : droppedMessages_ (step (sendMessage scenario_net "A" "B" "hi" 0) 5) = []).
  { rewrite step_spec. simpl. rewrite deliver_all_dropped.
    destruct (sendMessage_kept scenario_net "A" "B" "hi" 0) as (_ & Hdr & _).
    - unfold next_uniform01; simpl. unfold scenario_seed. lra.
    - exact Hdr. }
  rewrite Hdr. simpl.
  assert (Hlen : List.length (nodes_ (step (sendMessage scenario_net "A" "B" "hi" 0) 5))
                 = 2%nat).
  { rewrite step_spec. simpl.
    assert (Hl : forall msgs net now,
               List.length (nodes_ (deliver_all net msgs now)) = List.length (nodes_ net)).
    { induction msgs as [|m msgs IH]; intros net now; [reflexivity|].
      rewrite deliver_all_cons, IH. unfold deliver.
      destruct (getNode net _); simpl; [apply length_alter|reflexivity]. }
    rewrite Hl. destruct (sendMessage_frame scenario_net "A" "B" "hi" 0) as (-> & _).
    reflexivity. }
  pose proof scenarioB_late_step as HB.
  assert (HA : nodes_ (step (sendMessage scenario_net "A" "B" "hi" 0) 5) !! 0%nat =
               Some (Node.mk "A" [])).
  { rewrite step_nodes, scenarioB_queue.
    rewrite (filter_cons_True (due 5))
      by (unfold due; rewrite scenarioB_deliverTime; lra).
    destruct (sendMessage_frame scenario_net "A" "B" "hi" 0) as (Hn & Hi & _).
    rewrite Hn. unfold mail_for.
    rewrite filter_cons_False
      by (unfold addressed_to, getNode; rewrite Hi; simpl; discriminate).
    reflexivity. }
  destruct (nodes_ (step (sendMessage scenario_net "A" "B" "hi" 0) 5))
    as [|a [|b [|c rest]]]; simpl in Hlen; try discriminate.
  simpl in HA, HB. injection HA as ->. injection HB as ->. reflexivity.
Qed.

End Identifiers.

(** ** Histories only grow *)

Section AppendOnly.

Import Network.

Lemma continues_refl (net : t) : continues net net.
Proof.
  repeat split; try reflexivity; try lia.
  intros i n Hn. exists n. repeat split; [exact Hn|reflexivity].
Qed.

Lemma continues_trans (a b c : t) : continues a b -> continues b c -> continues a c.
Proof.
  intros (Hd1 & Hl1 & Hn1 & Hc1 & Hi1) (Hd2 & Hl2 & Hn2 & Hc2 & Hi2).
  split; [etrans; eassumption|]. split; [etrans; eassumption|].
  split; [|lia].
  intros i n Hn. destruct (Hn1 i n Hn) as (n1 & Hb & Hname1 & Hpre1).
  destruct (Hn2 i n1 Hb) as (n2 & Hc & Hname2 & Hpre2).
  exists n2. split; [exact Hc|]. split; [congruence|etrans; eassumption].
Qed.

Lemma call_continues (net : t) (c : Call) : continues net (call net c).
Proof.
  destruct c as [name|from to payload now|now]; simpl.
  - repeat split; try reflexivity; try (simpl; lia).
    intros i n Hn. exists n. split; [|split; reflexivity].
    apply lookup_app_l_Some. exact Hn.
  - destruct (sendMessage_frame net from to payload now)
      as (Hn & _ & Hc & _ & Hid & _).
    destruct (sendMessage_log net from to payload now) as (row & Hrow & _).
    split; [|split; [|split; [|lia]]].
    + destruct (sendMessage_builds net from to payload now) as [[|] [H1 H2]].
      * rewrite H1. apply prefix_app_r. reflexivity.
      * rewrite H2. reflexivity.
    + rewrite Hrow. apply prefix_app_r. reflexivity.
    + intros i n Hi. exists n. rewrite Hn. split; [exact Hi|split; reflexivity].
  - destruct (step_log net now) as (rows & Hrows & _).
    split; [|split; [|split; [|split]]].
    + rewrite step_spec. simpl. rewrite deliver_all_dropped. reflexivity.
    + rewrite Hrows. apply prefix_app_r. reflexivity.
    + intros i n Hi. rewrite step_nodes, Hi. simpl.
      eexists. split; [reflexivity|]. split; [reflexivity|].
      simpl. apply prefix_app_r. reflexivity.
    + rewrite step_spec. simpl. rewrite deliver_all_count. lia.
    + rewrite step_nextMessageId. lia.
Qed.

(** X12.  Whatever calls are made on a network, nothing of its history is
    lost or rewritten: the dropped set and the log file only get longer,
    every node keeps its index and its name, every mailbox only gets
    longer, and the counters never decrease. *)
Theorem history_only_grows (net : Network.t) (calls : list Call) :
  continues net (run net calls).
Proof.
  revert net. induction calls as [|c calls IH]; intros net; [apply continues_refl|].
  simpl. apply continues_trans with (call net c); [apply call_continues|apply IH].
Qed.

End AppendOnly.

(** ** The counters and the mailboxes *)

Section CountersAndMailboxes.

Import Network.








End CountersAndMailboxes.

(** ** Registration and lookup *)

Section RegistrationFacts.

Import Network.

(** X14.  [addNode] appends a node with the given name and an empty mailbox
    and binds the name to it; the lookup of every other name, every
    node already present, the queue, the dropped set and the counters
    are untouched; and a message addressed to the name is from then on
    delivered to the new node. *)
Theorem addNode_registers (net : Network.t) (name : string) :
  getNode (addNode net name) name = Some (List.length (nodes_ net))
  /\ nodes_ (addNode net name) !! List.length (nodes_ net) = Some (Node.mk name [])
  /\ List.length (nodes_ (addNode net name)) = S (List.length (nodes_ net))
  /\ (forall other : string,
        other <> name -> getNode (addNode net name) other = getNode net other)
  /\ (forall (i : nat) (n : Node.t),
        nodes_ net !! i = Some n -> nodes_ (addNode net name) !! i = Some n)
  /\ inTransit_ (addNode net name) = inTransit_ net
  /\ droppedMessages_ (addNode net name) = droppedMessages_ net
  /\ deliveredCount_ (addNode net name) = deliveredCount_ net
  /\ nextMessageId_ (addNode net name) = nextMessageId_ net
  /\ (forall (m : Message.t) (now : R),
        Message.to m = name ->
        nodes_ (deliver (addNode net name) m now) !! List.length (nodes_ net) =
          Some (Node.mk name [received_of m])).
Proof.
  assert (Hget : getNode (addNode net name) name = Some (List.length (nodes_ net)))
    by (unfold getNode; rewrite addNode_index; apply lookup_insert_eq).
  assert (Hlast : nodes_ (addNode net name) !! List.length (nodes_ net) =
                    Some (Node.mk name []))
    by (rewrite addNode_nodes; apply list_lookup_middle; reflexivity).
  split; [exact Hget|]. split; [exact Hlast|].
  split; [rewrite addNode_nodes, length_app; simpl; lia|].
  split.
  { intros other Hne. unfold getNode. rewrite addNode_index.
    apply lookup_insert_ne. congruence. }
  split.
  { intros i n Hn. rewrite addNode_nodes. apply lookup_app_l_Some. exact Hn. }
  repeat (split; [reflexivity|]).
  intros m now Hto.
  destruct (deliver_registered (addNode net name) m now (List.length (nodes_ net))
              (Node.mk name [])) as (Hnode & _).
  - rewrite Hto. exact Hget.
  - exact Hlast.
  - exact Hnode.
Qed.

Lemma filter_none {A : Type} (P : A -> Prop) `{!forall x, Decision (P x)} (l : list A) :
  (forall x, ~ P x) -> filter P l = [].
Proof.
  intros Hnone. induction l as [|a l IH]; [reflexivity|].
  rewrite filter_cons_False by apply Hnone. exact IH.
Qed.

Lemma call_keeps_unreachable (net : t) (c : Call) (i : nat) :
  (forall name : string, getNode net name <> Some i) ->
  (i < List.length (nodes_ net))%nat ->
  (forall name : string, getNode (call net c) name <> Some i)
  /\ (i < List.length (nodes_ (call net c)))%nat
  /\ nodes_ (call net c) !! i = nodes_ net !! i.
Proof.
  intros Hnone Hlt. destruct c as [name|from to payload now|now]; simpl.
  - split; [|split].
    + intros k. unfold getNode. rewrite addNode_index.
      destruct (decide (name = k)) as [->|Hne].
      * rewrite lookup_insert_eq. intros [= Heq]. lia.
      * rewrite lookup_insert_ne by exact Hne. apply Hnone.
    + rewrite length_app. simpl. lia.
    + apply lookup_app_l. exact Hlt.
  - destruct (sendMessage_frame net from to payload now) as (Hn & Hi & _).
    unfold getNode. rewrite Hn, Hi. repeat split; assumption.
  - split; [|split].
    + intros k. rewrite step_spec. unfold getNode. simpl.
      rewrite deliver_all_nodeIndex. apply Hnone.
    + destruct (lookup_lt_is_Some_2 (nodes_ net) i Hlt) as [n Hn].
      apply (lookup_lt_Some _ i (extend_inbox
               (mail_for net i (filter (due now) (inTransit_ net))) n)).
      rewrite step_nodes, Hn. reflexivity.
    + rewrite step_nodes. unfold mail_for.
      rewrite (filter_none (addressed_to net i)) by (intros m; apply Hnone).
      destruct (nodes_ net !! i) as [n|]; [|reflexivity].
      simpl. unfold extend_inbox. simpl. rewrite node_eta. reflexivity.
Qed.

(** X15.  A node that no name of the index leads to, such as the earlier node
    of a name registered twice, is out of reach for good: whatever calls
    follow, no lookup gives its index and its mailbox never changes. *)
Theorem unreachable_node_is_frozen (net : Network.t) (calls : list Call) (i : nat) :
  (forall name : string, getNode net name <> Some i) ->
  (i < List.length (nodes_ net))%nat ->
  (forall name : string, getNode (run net calls) name <> Some i)
  /\ nodes_ (run net calls) !! i = nodes_ net !! i.
Proof.
  revert net. induction calls as [|c calls IH]; intros net Hnone Hlt.
  - split; [exact Hnone|reflexivity].
  - simpl. destruct (call_keeps_unreachable net c i Hnone Hlt) as (Hnone' & Hlt' & Hsame).
    destruct (IH (call net c) Hnone' Hlt') as [Hfinal Hnodes].
    split; [exact Hfinal|]. rewrite Hnodes. exact Hsame.
Qed.

Lemma unreachable_node_is_frozen_witness :
  nodes_ (run (addNode scenario_net "A") [CallSend "B" "A" "hi" 0; CallStep 5])
    !! 0%nat = Some (Node.mk "A" []).
Proof.
  destruct (unreachable_node_is_frozen (addNode scenario_net "A")
              [CallSend "B" "A" "hi" 0; CallStep 5] 0) as [_ Hsame].
  - intros name. unfold getNode. rewrite addNode_index.
    destruct (decide ("A"%string = name)) as [<-|Hne].
    + rewrite lookup_insert_eq. discriminate.
    + rewrite lookup_insert_ne by exact Hne.
      unfold scenario_net. rewrite addNode_index.
      destruct (decide ("B"%string = name)) as [<-|Hne'].
      * rewrite lookup_insert_eq. discriminate.
      * rewrite lookup_insert_ne by exact Hne'.
        rewrite addNode_index, lookup_insert_ne by exact Hne.
        simpl. rewrite lookup_empty. discriminate.
  - simpl. lia.
  - rewrite Hsame. reflexivity.
Defined.

End RegistrationFacts.

(** ** The obfuscation keeps lengths and loses nothing *)

Section CipherShape.

Import Network.

(** X16.  [xorCipher] keeps the length of the text, for every key, and two
    different texts never have the same obfuscated form under one key. *)
Theorem xorCipher_length_and_injective :
  (forall text key : string,
      String.length (xorCipher text key) = String.length text)
  /\ (forall a b key : string, xorCipher a key = xorCipher b key -> a = b).
Proof.
  split.
  - intros text key. apply xorCipher_from_length.
  - intros a b key Heq.
    rewrite <- (xorCipher_involutive a key), <- (xorCipher_involutive b key), Heq.
    reflexivity.
Qed.

End CipherShape.

(** ** Node names of the simulator *)

Section NodeNames.

Lemma to_int_proper (n : Z) :
  Z.to_int n <> Decimal.Pos Decimal.Nil /\ Z.to_int n <> Decimal.Neg Decimal.Nil.
Proof.
  destruct n as [|p|p]; simpl; split; try discriminate;
    intros [= H]; exact (DecimalPos.Unsigned.to_uint_nonnil p H).
Qed.

Lemma to_string_parses (n : Z) :
  NilZero.int_of_string (Simulator.to_string n) = Some (Z.to_int n).
Proof.
  unfold Simulator.to_string. destruct (to_int_proper n) as [Hp Hn].
  apply NilZero.isi; assumption.
Qed.

Lemma to_string_inj (a b : Z) : Simulator.to_string a = Simulator.to_string b -> a = b.
Proof.
  intros Heq. apply DecimalZ.to_int_inj.
  pose proof (to_string_parses a) as Ha. rewrite Heq, to_string_parses in Ha.
  congruence.
Qed.

Lemma droneNodeName_inj (a b : Z) :
  Simulator.droneNodeName a = Simulator.droneNodeName b -> a = b.
Proof.
  unfold Simulator.droneNodeName. simpl. intros [= Heq].
  apply to_string_inj. exact Heq.
Qed.

Lemma droneNodeName_not_HQ (a : Z) : Simulator.droneNodeName a <> "HQ"%string.
Proof. unfold Simulator.droneNodeName. simpl. discriminate. Qed.

Lemma node_name_at_inj (i j : nat) : node_name_at i = node_name_at j -> i = j.
Proof.
  destruct i as [|i], j as [|j]; simpl; intros Heq.
  - reflexivity.
  - symmetry in Heq. destruct (droneNodeName_not_HQ _ Heq).
  - destruct (droneNodeName_not_HQ _ Heq).
  - apply droneNodeName_inj in Heq. lia.
Qed.

(** X17.  [std::to_string] on an [int], as modelled, is read back by the decimal
    parser as the same number, so it is injective; hence two drones with
    different identifiers get different node names, and no drone gets the
    name "HQ". *)
Theorem drone_node_names_are_distinct :
  (forall n : Z, Z.of_int <$> NilZero.int_of_string (Simulator.to_string n) = Some n)
  /\ (forall a b : Z, Simulator.to_string a = Simulator.to_string b -> a = b)
  /\ (forall a b : Z, Simulator.droneNodeName a = Simulator.droneNodeName b -> a = b)
  /\ (forall a : Z, Simulator.droneNodeName a <> "HQ"%string).
Proof.
  split.
  { intros n. rewrite to_string_parses. simpl. f_equal. apply DecimalZ.of_to. }
  split; [exact to_string_inj|]. split; [exact droneNodeName_inj|].
  exact droneNodeName_not_HQ.
Qed.

Example droneNodeName_12 : Simulator.droneNodeName 12 = "Drone12"%string.
Proof. reflexivity. Qed.

End NodeNames.

(** ** The thrust commands of the simulator *)

Section ThrustCommands.

Lemma onDrone_out_of_range (sim : Simulator.t) (droneId : Z) (f : Drone.t -> Drone.t) :
  ~ (0 <= droneId < Z.of_nat (List.length (Simulator.mDrones sim)))%Z ->
  Simulator.onDrone sim droneId f = sim.
Proof.
  intros Hout. unfold Simulator.onDrone.
  destruct (decide _) as [Hin|_]; [|reflexivity]. exfalso. apply Hout. lia.
Qed.

Lemma onDrone_in_range (sim : Simulator.t) (droneId : Z) (f : Drone.t -> Drone.t) :
  (0 <= droneId < Z.of_nat (List.length (Simulator.mDrones sim)))%Z ->
  Simulator.onDrone sim droneId f =
    Simulator.mk (Simulator.mWorld sim)
      (alter f (Z.to_nat droneId) (Simulator.mDrones sim))
      (Simulator.mComms sim) (Simulator.mSimTime sim)
      (Simulator.mNextReportTime sim) (Simulator.mReportInterval sim).
Proof.
  intros Hin. unfold Simulator.onDrone.
  destruct (decide _) as [_|Hout]; [reflexivity|]. exfalso. apply Hout. lia.
Qed.

Lemma onDrone_drones (sim : Simulator.t) (droneId : Z) (f : Drone.t -> Drone.t) :
  (0 <= droneId < Z.of_nat (List.length (Simulator.mDrones sim)))%Z ->
  Simulator.mDrones (Simulator.onDrone sim droneId f) !! Z.to_nat droneId =
    f <$> Simulator.mDrones sim !! Z.to_nat droneId
  /\ (forall j : nat,
        j <> Z.to_nat droneId ->
        Simulator.mDrones (Simulator.onDrone sim droneId f) !! j =
          Simulator.mDrones sim !! j)
  /\ Simulator.mComms (Simulator.onDrone sim droneId f) = Simulator.mComms sim
  /\ Simulator.mSimTime (Simulator.onDrone sim droneId f) = Simulator.mSimTime sim.
Proof.
  intros Hin. rewrite onDrone_in_range by exact Hin. simpl.
  split; [apply list_lookup_alter_eq|]. split; [|split; reflexivity].
  intros j Hj. apply list_lookup_alter_ne. congruence.
Qed.

(** X18.  The three thrust commands test the identifier against the number of
    drones.  An identifier that is negative or not below that number
    leaves the simulator exactly as it was.  An identifier in range
    applies the drone's own command to that drone and leaves every other
    drone, the network and the clock untouched. *)
Theorem thrust_commands_check_bounds
    (sim : Simulator.t) (droneId : Z) (direction force : Vector2.t) :
  (~ (0 <= droneId < Z.of_nat (List.length (Simulator.mDrones sim)))%Z ->
   Simulator.setDroneThrustDirection sim droneId direction = sim
   /\ Simulator.setDroneThrustForce sim droneId force = sim
   /\ Simulator.clearDroneThrust sim droneId = sim)
  /\ ((0 <= droneId < Z.of_nat (List.length (Simulator.mDrones sim)))%Z ->
      (Simulator.mDrones (Simulator.setDroneThrustDirection sim droneId direction)
         !! Z.to_nat droneId =
         (fun d => Drone.setThrustDirection d direction)
           <$> Simulator.mDrones sim !! Z.to_nat droneId)
      /\ (Simulator.mDrones (Simulator.setDroneThrustForce sim droneId force)
            !! Z.to_nat droneId =
            (fun d => Drone.setThrustForce d force)
              <$> Simulator.mDrones sim !! Z.to_nat droneId)
      /\ (Simulator.mDrones (Simulator.clearDroneThrust sim droneId)
            !! Z.to_nat droneId =
            Drone.clearThrust <$> Simulator.mDrones sim !! Z.to_nat droneId)
      /\ (forall j : nat,
            j <> Z.to_nat droneId ->
            Simulator.mDrones (Simulator.setDroneThrustDirection sim droneId direction)
              !! j = Simulator.mDrones sim !! j
            /\ Simulator.mDrones (Simulator.setDroneThrustForce sim droneId force)
                 !! j = Simulator.mDrones sim !! j
            /\ Simulator.mDrones (Simulator.clearDroneThrust sim droneId)
                 !! j = Simulator.mDrones sim !! j)
      /\ Simulator.mComms (Simulator.setDroneThrustDirection sim droneId direction) =
           Simulator.mComms sim
      /\ Simulator.mComms (Simulator.setDroneThrustForce sim droneId force) =
           Simulator.mComms sim
      /\ Simulator.mComms (Simulator.clearDroneThrust sim droneId) =
           Simulator.mComms sim).
Proof.
  split.
  - intros Hout.
    unfold Simulator.setDroneThrustDirection, Simulator.setDroneThrustForce,
      Simulator.clearDroneThrust.
    rewrite !onDrone_out_of_range by exact Hout. repeat split.
  - intros Hin.
    unfold Simulator.setDroneThrustDirection, Simulator.setDroneThrustForce,
      Simulator.clearDroneThrust.
    destruct (onDrone_drones sim droneId (fun d => Drone.setThrustDirection d direction) Hin)
      as (Hd1 & Hd2 & Hd3 & _).
    destruct (onDrone_drones sim droneId (fun d => Drone.setThrustForce d force) Hin)
      as (Hf1 & Hf2 & Hf3 & _).
    destruct (onDrone_drones sim droneId Drone.clearThrust Hin)
      as (Hc1 & Hc2 & Hc3 & _).
    repeat split; try assumption; auto.
Qed.

(** On a simulator with one drone, a command for drone 1 or drone -1 is
    ignored. *)
Example thrust_command_ignored (seed : nat -> R) :
  Simulator.clearDroneThrust
    (fst (Simulator.addDrone (Simulator.new scenarioA_world seed)
            scenarioA_params scenarioA_start)) 1 =
    fst (Simulator.addDrone (Simulator.new scenarioA_world seed)
           scenarioA_params scenarioA_start)
  /\ Simulator.setDroneThrustForce
       (fst (Simulator.addDrone (Simulator.new scenarioA_world seed)
               scenarioA_params scenarioA_start)) (-1) unit_force_x =
       fst (Simulator.addDrone (Simulator.new scenarioA_world seed)
              scenarioA_params scenarioA_start).
Proof. split; reflexivity. Qed.

End ThrustCommands.

(** ** The registry of a simulator *)

Section SimulatorRegistry.

Import Network.

Variable fixed2 : R -> string.

Lemma step_nodeIndex (net : t) (now : R) : nodeIndex_ (step net now) = nodeIndex_ net.
Proof. rewrite step_spec. simpl. apply deliver_all_nodeIndex. Qed.

Lemma step_length (net : t) (now : R) :
  List.length (nodes_ (step net now)) = List.length (nodes_ net).
Proof.
  apply Nat.le_antisymm.
  - destruct (Nat.le_gt_cases (List.length (nodes_ (step net now)))
                (List.length (nodes_ net))) as [Hle|Hgt]; [exact Hle|].
    destruct (lookup_lt_is_Some_2 _ _ Hgt) as [n Hn].
    rewrite step_nodes in Hn.
    rewrite (lookup_ge_None_2 (nodes_ net) (List.length (nodes_ net))) in Hn by lia.
    discriminate.
  - destruct (Nat.le_gt_cases (List.length (nodes_ net))
                (List.length (nodes_ (step net now)))) as [Hle|Hgt]; [exact Hle|].
    destruct (lookup_lt_is_Some_2 _ _ Hgt) as [n Hn].
    pose proof (step_nodes net now (List.length (nodes_ (step net now)))) as Hs.
    rewrite Hn in Hs. simpl in Hs.
    rewrite lookup_ge_None_2 in Hs by lia. discriminate.
Qed.

Lemma step_name (net : t) (now : R) (i : nat) (n' : Node.t) :
  nodes_ (step net now) !! i = Some n' ->
  exists n : Node.t, nodes_ net !! i = Some n /\ Node.name_ n' = Node.name_ n.
Proof.
  rewrite step_nodes. destruct (nodes_ net !! i) as [n|]; simpl; [|discriminate].
  intros [= <-]. exists n. split; reflexivity.
Qed.

Lemma sendMessage_failures (net : t) (from to payload : string) (now : R) :
  failures (cout_ (sendMessage net from to payload now)) = failures (cout_ net).
Proof.
  destruct (Rlt_dec (next_uniform01 net) (dropProb_ net)) as [Hd|Hk].
  - destruct (sendMessage_dropped net from to payload now Hd) as (_ & _ & ->).
    rewrite failures_snoc. simpl. lia.
  - destruct (sendMessage_kept net from to payload now Hk) as (_ & _ & ->).
    rewrite failures_snoc. simpl. lia.
Qed.

Lemma sendMessage_queue_to (net : t) (from to payload : string) (now : R)
    (m : Message.t) :
  m ∈ inTransit_ (sendMessage net from to payload now) ->
  m ∈ inTransit_ net \/ Message.to m = to.
Proof.
  destruct (sendMessage_builds net from to payload now) as [[|] [H1 H2]].
  - rewrite H2. auto.
  - rewrite H1. intros Hin. apply elem_of_app in Hin as [Hold|Hnew]; [auto|].
    apply list_elem_of_singleton in Hnew. subst m. right. reflexivity.
Qed.

(** What the telemetry of one step leaves alone, and what it queues. *)
Lemma report_all_frame (drones : list Drone.t) (comms : t) (now : R) :
  nodes_ (report_all fixed2 comms drones now) = nodes_ comms
  /\ nodeIndex_ (report_all fixed2 comms drones now) = nodeIndex_ comms
  /\ failures (cout_ (report_all fixed2 comms drones now)) = failures (cout_ comms)
  /\ accounted (report_all fixed2 comms drones now) =
       (accounted comms + Z.of_nat (List.length drones))%Z
  /\ (forall m : Message.t,
        m ∈ inTransit_ (report_all fixed2 comms drones now) ->
        m ∈ inTransit_ comms \/ Message.to m = "HQ"%string).
Proof.
  revert comms. induction drones as [|d drones IH]; intros comms.
  - simpl. repeat split; try lia. auto.
  - rewrite report_all_cons.
    destruct (IH (Simulator.sendDroneStatus fixed2 comms d now))
      as (Hn & Hi & Hf & Ha & Hq).
    unfold Simulator.sendDroneStatus in *.
    destruct (sendMessage_frame comms (Simulator.droneNodeName (Drone.mId d)) "HQ"
                (Simulator.statusPayload fixed2 d) now) as (Hn' & Hi' & _).
    rewrite Hn, Hi, Hf, Ha, Hn', Hi', sendMessage_failures, accounted_sendMessage.
    repeat split; try (simpl List.length; lia).
    intros m Hm. destruct (Hq m Hm) as [Hold|Hto]; [|auto].
    apply sendMessage_queue_to in Hold. exact Hold.
Qed.

Lemma step_comms (sim : Simulator.t) (dt : R) :
  exists reporting : list Drone.t,
    Simulator.mComms (Simulator.step fixed2 sim dt) =
      step (report_all fixed2 (Simulator.mComms sim) reporting
              (Simulator.mSimTime sim + dt))
        (Simulator.mSimTime sim + dt).
Proof.
  unfold Simulator.step. destruct (Rge_dec _ _).
  - eexists. reflexivity.
  - exists []. reflexivity.
Qed.

Lemma update_mId (d : Drone.t) (dt : R) (world : World.t) :
  Drone.mId (Drone.update d dt world) = Drone.mId d.
Proof.
  unfold Drone.update, Drone.boundary. case_compare; reflexivity.
Qed.

Lemma setThrustForce_mId (d : Drone.t) (force : Vector2.t) :
  Drone.mId (Drone.setThrustForce d force) = Drone.mId d.
Proof.
  unfold Drone.setThrustForce. destruct (Req_dec_T _ _); [reflexivity|].
  destruct (Rle_dec _ _); reflexivity.
Qed.

Lemma onDrone_registry (sim : Simulator.t) (droneId : Z) (f : Drone.t -> Drone.t) :
  (forall d, Drone.mId (f d) = Drone.mId d) ->
  registry_in_step sim -> registry_in_step (Simulator.onDrone sim droneId f).
Proof.
  intros Hf Hreg. unfold Simulator.onDrone. destruct (decide _) as [Hin|_]; [|exact Hreg].
  destruct Hreg as (Ha & Hb & Hc & Hd).
  split; [|split; [|split]]; simpl.
  - intros i d. destruct (decide (Z.to_nat droneId = i)) as [<-|Hne].
    + rewrite list_lookup_alter_eq.
      destruct (Simulator.mDrones sim !! Z.to_nat droneId) as [d0|] eqn:Hd0;
        simpl; [|discriminate].
      intros [= <-]. rewrite Hf. apply Ha. exact Hd0.
    + rewrite list_lookup_alter_ne by exact Hne. apply Ha.
  - rewrite length_alter. exact Hb.
  - exact Hc.
  - exact Hd.
Qed.

Lemma addDrone_registry (sim : Simulator.t) (parameters : Drone.DroneParams)
    (startPos : Vector2.t) :
  registry_in_step sim ->
  registry_in_step (fst (Simulator.addDrone sim parameters startPos)).
Proof.
  intros (Ha & Hb & Hc & Hd). unfold Simulator.addDrone. simpl.
  assert (Hname : Simulator.droneNodeName (Z.of_nat (List.length (Simulator.mDrones sim)))
                  = node_name_at (List.length (nodes_ (Simulator.mComms sim))))
    by (rewrite Hb; reflexivity).
  split; [|split; [|split]]; simpl.
  - intros i d Hi. apply lookup_app_Some in Hi as [Hold|[Hge Hnew]].
    + apply Ha. exact Hold.
    + destruct (i - List.length (Simulator.mDrones sim))%nat as [|k] eqn:Hk;
        [|simpl in Hnew; discriminate].
      simpl in Hnew. injection Hnew as <-. simpl. f_equal. lia.
  - rewrite !length_app. simpl. lia.
  - intros i Hi. rewrite length_app in Hi. simpl in Hi.
    unfold getNode. rewrite addNode_index, Hname.
    destruct (decide (i = List.length (nodes_ (Simulator.mComms sim)))) as [->|Hne].
    + apply lookup_insert_eq.
    + rewrite lookup_insert_ne
        by (intros Heq; apply node_name_at_inj in Heq; congruence).
      apply Hc. lia.
  - intros i n Hi. apply lookup_app_Some in Hi as [Hold|[Hge Hnew]].
    + apply Hd. exact Hold.
    + destruct (i - List.length (nodes_ (Simulator.mComms sim)))%nat as [|k] eqn:Hk;
        [|simpl in Hnew; discriminate].
      simpl in Hnew. injection Hnew as <-. simpl. rewrite Hname. f_equal. lia.
Qed.

Lemma step_registry (sim : Simulator.t) (dt : R) :
  registry_in_step sim -> registry_in_step (Simulator.step fixed2 sim dt).
Proof.
  intros (Ha & Hb & Hc & Hd).
  destruct (step_comms sim dt) as [reporting Hcomms].
  destruct (report_all_frame reporting (Simulator.mComms sim)
              (Simulator.mSimTime sim + dt)) as (Hn & Hi & _).
  unfold registry_in_step. rewrite Hcomms, step_drones.
  rewrite step_length, Hn, length_map.
  split; [|split; [exact Hb|split]].
  - intros i d. rewrite list_lookup_fmap.
    destruct (Simulator.mDrones sim !! i) as [d0|] eqn:Hd0; simpl; [|discriminate].
    intros [= <-]. rewrite update_mId. apply Ha. exact Hd0.
  - intros i Hlt. unfold getNode. rewrite step_nodeIndex, Hi. apply Hc. exact Hlt.
  - intros i n Hin. apply step_name in Hin as (n0 & Hn0 & ->).
    rewrite Hn in Hn0. apply Hd. exact Hn0.
Qed.

Lemma command_registry (sim : Simulator.t) (c : Command) :
  registry_in_step sim -> registry_in_step (command fixed2 sim c).
Proof.
  intros Hreg. destruct c; simpl.
  - apply addDrone_registry, Hreg.
  - apply onDrone_registry; [reflexivity|exact Hreg].
  - apply onDrone_registry; [intros d; apply setThrustForce_mId|exact Hreg].
  - apply onDrone_registry; [reflexivity|exact Hreg].
  - apply step_registry, Hreg.
Qed.

Lemma new_registry (world : World.t) (seed : nat -> R) :
  registry_in_step (Simulator.new world seed).
Proof.
  split; [|split; [|split]]; simpl.
  - intros i d Hi. rewrite lookup_nil in Hi. discriminate.
  - reflexivity.
  - intros i Hi. assert (i = 0%nat) as -> by lia. reflexivity.
  - intros [|i] n Hi; simpl in Hi; [|rewrite lookup_nil in Hi; discriminate].
    injection Hi as <-. reflexivity.
Qed.

Lemma operate_registry (cmds : list Command) (sim : Simulator.t) :
  registry_in_step sim -> registry_in_step (operate fixed2 sim cmds).
Proof.
  revert sim. induction cmds as [|c cmds IH]; intros sim Hreg; [exact Hreg|].
  simpl. apply IH, command_registry, Hreg.
Qed.

(** X19.  In a simulator built by its constructor and any sequence of public
    calls: the identifier of every drone is its index; the network has
    one node more than there are drones, "HQ" at index 0 and the node of
    drone [i] at index [i + 1]; and every node is found under its own
    name, so no node is ever orphaned by a second registration. *)
Theorem simulator_registry_stays_in_step
    (world : World.t) (seed : nat -> R) (cmds : list Command) :
  registry_in_step (operate fixed2 (Simulator.new world seed) cmds)
  /\ getNode (Simulator.mComms (operate fixed2 (Simulator.new world seed) cmds)) "HQ"
     = Some 0%nat
  /\ (forall (i : nat) (n : Node.t),
        nodes_ (Simulator.mComms (operate fixed2 (Simulator.new world seed) cmds)) !! i
          = Some n ->
        getNode (Simulator.mComms (operate fixed2 (Simulator.new world seed) cmds))
          (Node.name_ n) = Some i).
Proof.
  pose proof (operate_registry cmds _ (new_registry world seed)) as Hreg.
  split; [exact Hreg|].
  destruct Hreg as (_ & Hb & Hc & Hd). split.
  - apply (Hc 0%nat). lia.
  - intros i n Hn. rewrite (Hd i n Hn). apply Hc. apply lookup_lt_Some in Hn. exact Hn.
Qed.

End SimulatorRegistry.

(** ** Where the telemetry goes *)

Section TelemetryTraffic.

Import Network.

Variable fixed2 : R -> string.

Lemma filter_all_in {A : Type} (P : A -> Prop) `{!forall x, Decision (P x)} (l : list A) :
  (forall x, x ∈ l -> P x) -> filter P l = l.
Proof.
  induction l as [|a l IH]; intros Hall; [reflexivity|].
  rewrite filter_cons_True by (apply Hall; left).
  rewrite IH; [reflexivity|]. intros x Hx. apply Hall. right. exact Hx.
Qed.

Lemma filter_none_in {A : Type} (P : A -> Prop) `{!forall x, Decision (P x)} (l : list A) :
  (forall x, x ∈ l -> ~ P x) -> filter P l = [].
Proof.
  induction l as [|a l IH]; intros Hnone; [reflexivity|].
  rewrite filter_cons_False by (apply Hnone; left).
  apply IH. intros x Hx. apply Hnone. right. exact Hx.
Qed.

Lemma step_only_HQ (net : t) (now : R) :
  getNode net "HQ" = Some 0%nat ->
  only_HQ_receives net -> only_HQ_receives (step net now).
Proof.
  intros HHQ (Hto & Hfail & Hempty).
  assert (Hdue_to : forall m, m ∈ filter (due now) (inTransit_ net) ->
                              Message.to m = "HQ"%string).
  { intros m Hm. apply list_elem_of_filter in Hm as [_ Hm]. apply Hto, Hm. }
  split; [|split].
  - intros m Hm. rewrite step_inTransit in Hm.
    apply list_elem_of_filter in Hm as [_ Hm]. apply Hto, Hm.
  - pose proof (step_failures net now) as Hf.
    rewrite (filter_all_in (registered net)) in Hf; [lia|].
    intros m Hm. unfold registered. rewrite (Hdue_to m Hm), HHQ. eauto.
  - intros i n Hi Hn. rewrite step_nodes in Hn.
    destruct (nodes_ net !! i) as [n0|] eqn:Hn0; simpl in Hn; [|discriminate].
    injection Hn as <-. simpl. rewrite (Hempty i n0 Hi Hn0). simpl.
    unfold mail_for. rewrite (filter_none_in (addressed_to net i)); [reflexivity|].
    intros m Hm Haddr. unfold addressed_to in Haddr.
    rewrite (Hdue_to m Hm), HHQ in Haddr. congruence.
Qed.

Lemma onDrone_comms (sim : Simulator.t) (droneId : Z) (f : Drone.t -> Drone.t) :
  Simulator.mComms (Simulator.onDrone sim droneId f) = Simulator.mComms sim.
Proof. unfold Simulator.onDrone. destruct (decide _); reflexivity. Qed.

Lemma command_traffic (sim : Simulator.t) (c : Command) :
  registry_in_step sim ->
  only_HQ_receives (Simulator.mComms sim)
  /\ accounted (Simulator.mComms sim) =
       (nextMessageId_ (Simulator.mComms sim) - 1)%Z ->
  only_HQ_receives (Simulator.mComms (command fixed2 sim c))
  /\ accounted (Simulator.mComms (command fixed2 sim c)) =
       (nextMessageId_ (Simulator.mComms (command fixed2 sim c)) - 1)%Z.
Proof.
  intros Hreg [(Hto & Hfail & Hempty) Hacc].
  destruct c as [parameters startPos|droneId direction|droneId force|droneId|dt];
    simpl;
    try (unfold Simulator.setDroneThrustDirection, Simulator.setDroneThrustForce,
           Simulator.clearDroneThrust;
         rewrite onDrone_comms; repeat split; assumption).
  - split; [|rewrite accounted_addNode; exact Hacc].
    split; [exact Hto|]. split; [exact Hfail|].
    intros i n Hi Hn. rewrite addNode_nodes in Hn.
    apply lookup_app_Some in Hn as [Hold|[_ Hnew]]; [apply (Hempty i n Hi Hold)|].
    destruct (i - List.length (nodes_ (Simulator.mComms sim)))%nat;
      simpl in Hnew; [|discriminate].
    injection Hnew as <-. reflexivity.
  - destruct (step_comms fixed2 sim dt) as [reporting ->].
    destruct (report_all_frame fixed2 reporting (Simulator.mComms sim)
                (Simulator.mSimTime sim + dt)) as (Hn & Hi & Hf & Ha & Hq).
    destruct Hreg as (_ & Hb & Hc & _).
    split.
    + apply step_only_HQ.
      * unfold getNode. rewrite Hi. apply (Hc 0%nat). lia.
      * split; [|split].
        -- intros m Hm. destruct (Hq m Hm) as [Hold|Hnew]; [apply Hto, Hold|exact Hnew].
        -- rewrite Hf. exact Hfail.
        -- rewrite Hn. exact Hempty.
    + rewrite accounted_step, Ha, step_nextMessageId, report_all_nextMessageId, Hacc.
      lia.
Qed.

Lemma operate_traffic (cmds : list Command) (sim : Simulator.t) :
  registry_in_step sim ->
  only_HQ_receives (Simulator.mComms sim)
  /\ accounted (Simulator.mComms sim) =
       (nextMessageId_ (Simulator.mComms sim) - 1)%Z ->
  only_HQ_receives (Simulator.mComms (operate fixed2 sim cmds))
  /\ accounted (Simulator.mComms (operate fixed2 sim cmds)) =
       (nextMessageId_ (Simulator.mComms (operate fixed2 sim cmds)) - 1)%Z.
Proof.
  revert sim. induction cmds as [|c cmds IH]; intros sim Hreg Hinv; [exact Hinv|].
  simpl. apply IH.
  - apply command_registry, Hreg.
  - apply command_traffic; assumption.
Qed.

(** X20.  In a simulator built by its constructor and any sequence of public
    calls: every queued message is addressed to "HQ"; no delivery has
    ever failed; the mailbox of every node other than "HQ" is empty; and
    every message sent so far is counted as delivered, is in the dropped
    set, or is still queued. *)
Theorem telemetry_reaches_only_HQ
    (world : World.t) (seed : nat -> R) (cmds : list Command) :
  only_HQ_receives (Simulator.mComms (operate fixed2 (Simulator.new world seed) cmds))
  /\ (deliveredCount_ (Simulator.mComms (operate fixed2 (Simulator.new world seed) cmds))
      + Z.of_nat (List.length
          (droppedMessages_
             (Simulator.mComms (operate fixed2 (Simulator.new world seed) cmds))))
      + Z.of_nat (List.length
          (inTransit_
             (Simulator.mComms (operate fixed2 (Simulator.new world seed) cmds)))))%Z
     = (nextMessageId_
          (Simulator.mComms (operate fixed2 (Simulator.new world seed) cmds)) - 1)%Z.
Proof.
  destruct (operate_traffic cmds (Simulator.new world seed)) as [Honly Hacc].
  - apply new_registry.
  - split; [|reflexivity]. split; [|split].
    + intros m Hm. simpl in Hm. inversion Hm.
    + reflexivity.
    + intros [|i] n Hi Hn; [congruence|]. simpl in Hn.
      rewrite lookup_nil in Hn. discriminate.
  - split; [exact Honly|].
    destruct Honly as (_ & Hfail & _). unfold accounted in Hacc.
    rewrite Hfail in Hacc. simpl in Hacc. lia.
Qed.

End TelemetryTraffic.

(** ** The delivery window of every message held *)

Section DeliveryWindow.

Import Network.

(** Queued and dropped messages scheduled between [lo] and [hi] after
    their send time. *)
Lemma call_delivery_window (net : t) (c : Call) (lo hi : R) :
  draws_in_range (rng_ net) -> 0 <= jitter_ net ->
  lo <= baseLatency_ net - jitter_ net -> baseLatency_ net + jitter_ net <= hi ->
  (forall m : Message.t,
      m ∈ inTransit_ net \/ m ∈ droppedMessages_ net ->
      Message.sendTime m + lo <= Message.deliverTime m <= Message.sendTime m + hi) ->
  (forall m : Message.t,
      m ∈ inTransit_ (call net c) \/ m ∈ droppedMessages_ (call net c) ->
      Message.sendTime m + lo <= Message.deliverTime m <= Message.sendTime m + hi).
Proof.
  intros Hr Hj Hlo Hhi Hheld.
  destruct c as [name|from to payload now|now]; simpl.
  - exact Hheld.
  - pose proof (next_latency_range net Hr Hj) as Hlat.
    assert (Hnew : forall dropped : bool,
               Message.sendTime (sent_message net from to payload now dropped) + lo
                 <= Message.deliverTime (sent_message net from to payload now dropped)
                 <= Message.sendTime (sent_message net from to payload now dropped) + hi)
      by (intros dropped; simpl; lra).
    intros m Hm.
    destruct (sendMessage_builds net from to payload now) as [[|] [H1 H2]];
      rewrite H1, H2 in Hm.
    + destruct Hm as [Hm|Hm]; [apply Hheld; auto|].
      apply elem_of_app in Hm as [Hold|Hm]; [apply Hheld; auto|].
      apply list_elem_of_singleton in Hm. subst m. apply Hnew.
    + destruct Hm as [Hm|Hm]; [|apply Hheld; auto].
      apply elem_of_app in Hm as [Hold|Hm]; [apply Hheld; auto|].
      apply list_elem_of_singleton in Hm. subst m. apply Hnew.
  - intros m [Hm|Hm]; apply Hheld.
    + left. rewrite step_inTransit in Hm.
      apply list_elem_of_filter in Hm as [_ Hm]. exact Hm.
    + right. rewrite step_spec in Hm. simpl in Hm.
      rewrite deliver_all_dropped in Hm. exact Hm.
Qed.

Lemma run_delivery_window (calls : list Call) (net : t) (lo hi : R) :
  draws_in_range (rng_ net) -> 0 <= jitter_ net ->
  lo <= baseLatency_ net - jitter_ net -> baseLatency_ net + jitter_ net <= hi ->
  (forall m : Message.t,
      m ∈ inTransit_ net \/ m ∈ droppedMessages_ net ->
      Message.sendTime m + lo <= Message.deliverTime m <= Message.sendTime m + hi) ->
  (forall m : Message.t,
      m ∈ inTransit_ (run net calls) \/ m ∈ droppedMessages_ (run net calls) ->
      Message.sendTime m + lo <= Message.deliverTime m <= Message.sendTime m + hi).
Proof.
  revert net. induction calls as [|c calls IH]; intros net Hr Hj Hlo Hhi Hheld;
    [exact Hheld|].
  simpl. pose proof (call_setup net c) as Hs.
  pose proof (draws_in_range_setup _ net Hs Hr) as Hr'.
  destruct Hs as (Hb & Hjit & _ & _).
  apply IH; rewrite ?Hb, ?Hjit; try assumption.
  apply call_delivery_window; assumption.
Qed.

(** X21.  From a new network whose generator draws in [[0,1)] and whose
    [jitter] is not negative, after any calls: every message held, in the
    queue or in the dropped set, is scheduled no earlier than
    [sendTime + (baseLatency - jitter)] and no later than
    [sendTime + (baseLatency + jitter)]. *)
Theorem delivery_window_is_kept
    (baseLatency jitter dropProbability : R) (seed : nat -> R) (calls : list Call) :
  (forall k : nat, 0 <= seed k < 1) -> 0 <= jitter ->
  forall m : Message.t,
    m ∈ inTransit_ (run (new baseLatency jitter dropProbability seed) calls)
    \/ m ∈ droppedMessages_ (run (new baseLatency jitter dropProbability seed) calls) ->
    Message.sendTime m + (baseLatency - jitter) <= Message.deliverTime m
      <= Message.sendTime m + (baseLatency + jitter).
Proof.
  intros Hseed Hj.
  apply (run_delivery_window calls (new baseLatency jitter dropProbability seed));
    simpl; try lra; try exact Hseed.
  intros m [Hm|Hm]; inversion Hm.
Qed.

Lemma delivery_window_is_kept_witness :
  Message.sendTime (sent_message scenario_net "A" "B" "hi" 0 false) + (1 - 0)
    <= Message.deliverTime (sent_message scenario_net "A" "B" "hi" 0 false)
    <= Message.sendTime (sent_message scenario_net "A" "B" "hi" 0 false) + (1 + 0).
Proof.
  apply (delivery_window_is_kept 1 0 0 scenario_seed scenarioB_calls).
  - intros k. unfold scenario_seed. lra.
  - lra.
  - left.
    change (run (new 1 0 0 scenario_seed) scenarioB_calls)
      with (sendMessage scenario_net "A" "B" "hi" 0).
    rewrite scenarioB_queue. left.
Defined.

End DeliveryWindow.

(** ** The simulator drives its network by calls *)

Section SimulatorNetwork.

Import Network.

Variable fixed2 : R -> string.









End SimulatorNetwork.


(** ** Stepping the network again *)

Section StepAgain.

Import Network.

Lemma with_inTransit_same (net : t) : with_inTransit net (inTransit_ net) = net.
Proof. destruct net; reflexivity. Qed.

(** X23.  A [step] at a time not later than that of the [step] just made
    changes nothing at all: nothing is delivered, logged or printed, and
    the queue is kept as it is. *)
Theorem step_again_is_idle (net : Network.t) (now earlier : R) :
  earlier <= now ->
  step (step net now) earlier = step net now.
Proof.
  intros Hle. rewrite (step_spec (step net now) earlier).
  assert (Hq : forall m, m ∈ inTransit_ (step net now) -> travelling now m).
  { intros m Hm. rewrite step_inTransit in Hm.
    apply list_elem_of_filter in Hm as [Htr _]. exact Htr. }
  rewrite (filter_none_in (due earlier)).
  - rewrite (filter_all_in (travelling earlier)).
    + simpl. apply with_inTransit_same.
    + intros m Hm. apply Hq in Hm. unfold travelling in *. lra.
  - intros m Hm Hdue. apply Hq in Hm. unfold travelling, due in *. lra.
Qed.

Lemma step_again_is_idle_witness :
  step (step (sendMessage scenario_net "A" "B" "hi" 0) 5) 5 =
    step (sendMessage scenario_net "A" "B" "hi" 0) 5.
Proof. apply (step_again_is_idle (sendMessage scenario_net "A" "B" "hi" 0) 5 5). lra. Defined.

End StepAgain.
